(** * KakaoTalk chat export parser: a shallow embedding of [src/scripts/parser.js]

    The development follows the class [KakaoTalkParser]: JavaScript strings
    are sequences of UTF-16 code units, the three regular expressions of the
    source are values of a small backtracking matcher, the parser object is a
    record that [parse] threads explicitly, and the one place where the
    source could raise (a method call on a capture group) lives in an error
    monad. *)

From Stdlib Require Import ZArith NArith String Ascii SpecFloat.
From stdpp Require Import base option list gmap.

Local Open Scope N_scope.

(** ** JavaScript strings *)

(** A JavaScript string is a finite sequence of 16-bit code units. *)
Definition char : Type := N.
Definition jsstring : Type := list N.

(** String literals of the source are written as Rocq strings (UTF-8 bytes)
    and turned into code units once and for all. *)
Fixpoint bytes_of_string (s : string) : list N :=
  match s with
  | EmptyString => []
  | String a s' => N_of_ascii a :: bytes_of_string s'
  end.

Fixpoint utf16_of_bytes (bs : list N) : jsstring :=
  match bs with
  | [] => []
  | b0 :: t0 =>
    if b0 <? 0x80 then b0 :: utf16_of_bytes t0
    else match t0 with
    | [] => [0xFFFD]
    | b1 :: t1 =>
      if b0 <? 0xE0 then ((b0 mod 32) * 64 + b1 mod 64) :: utf16_of_bytes t1
      else match t1 with
      | [] => [0xFFFD]
      | b2 :: t2 =>
        if b0 <? 0xF0
        then ((b0 mod 16) * 4096 + (b1 mod 64) * 64 + b2 mod 64) :: utf16_of_bytes t2
        else match t2 with
        | [] => [0xFFFD]
        | b3 :: t3 =>
          let cp := (b0 mod 8) * 262144 + (b1 mod 64) * 4096 + (b2 mod 64) * 64 + b3 mod 64 in
          (0xD800 + (cp - 0x10000) / 1024) :: (0xDC00 + (cp - 0x10000) mod 1024)
            :: utf16_of_bytes t3
        end
      end
    end
  end.

Definition js (s : string) : jsstring := utf16_of_bytes (bytes_of_string s).

(** [WhiteSpace] and [LineTerminator] of ECMAScript: what [String.prototype.trim]
    strips and what [\s] matches. *)
Definition isWhiteSpace (c : char) : bool :=
  (c =? 0x09) || (c =? 0x0A) || (c =? 0x0B) || (c =? 0x0C) || (c =? 0x0D)
  || (c =? 0x20) || (c =? 0xA0) || (c =? 0x1680)
  || ((0x2000 <=? c) && (c <=? 0x200A))
  || (c =? 0x2028) || (c =? 0x2029) || (c =? 0x202F) || (c =? 0x205F)
  || (c =? 0x3000) || (c =? 0xFEFF).

(** [LineTerminator]: what [.] refuses. *)
Definition isLineTerminator (c : char) : bool :=
  (c =? 0x0A) || (c =? 0x0D) || (c =? 0x2028) || (c =? 0x2029).

Definition isDigit (c : char) : bool := (0x30 <=? c) && (c <=? 0x39).

Fixpoint trimStart (s : jsstring) : jsstring :=
  match s with
  | [] => []
  | c :: s' => if isWhiteSpace c then trimStart s' else s
  end.

Definition trimEnd (s : jsstring) : jsstring := rev (trimStart (rev s)).

(** [s.trim()] *)
Definition trim (s : jsstring) : jsstring := trimEnd (trimStart s).

(** [s.startsWith(p)] *)
Fixpoint startsWith (s p : jsstring) : bool :=
  match p, s with
  | [], _ => true
  | _ :: _, [] => false
  | a :: p', b :: s' => (a =? b) && startsWith s' p'
  end.

(** [s.includes(p)] *)
Fixpoint includes (s p : jsstring) : bool :=
  startsWith s p ||
  match s with
  | [] => false
  | _ :: s' => includes s' p
  end.

(** [s.replace(p, r)] with a string pattern: only the first occurrence is
    replaced. The replacement strings of the source are empty, so no [$]
    substitution pattern is involved. *)
Fixpoint replace (s p r : jsstring) : jsstring :=
  if startsWith s p then r ++ drop (length p) s
  else match s with
       | [] => []
       | c :: s' => c :: replace s' p r
       end.

(** [s.split(sep)] for a one-character separator; never the empty list. *)
Fixpoint split (sep : char) (s : jsstring) : list jsstring :=
  match s with
  | [] => [[]]
  | c :: s' =>
    if c =? sep then [] :: split sep s'
    else match split sep s' with
         | l :: ls => (c :: l) :: ls
         | [] => [[c]]
         end
  end.

(** JavaScript truthiness of a string: [!s] holds exactly for the empty string. *)
Definition falsy (s : jsstring) : bool :=
  match s with [] => true | _ => false end.

Definition streq (a b : jsstring) : bool := bool_decide (a = b).

(** ** Regular expressions

    The fragment of ECMAScript regular expressions the source uses:
    one-character classes, concatenation, alternation, greedy quantifiers
    over a one-character atom, capture groups and the two assertions [^]
    and [$] (no [m] flag). Matching is the backtracking search of the
    language definition, written with continuations. *)
Inductive regex : Type :=
| Empty
| Char (p : char -> bool)
| Cat (r1 r2 : regex)
| Alt (r1 r2 : regex)
| Rep (lo : nat) (hi : option nat) (p : char -> bool)
| Group (i : nat) (r : regex)
| Bol
| Eol.

Record mstate : Type := MState {
  m_pos : nat;
  m_rest : jsstring;
  m_caps : list (option jsstring)
}.

(** Greedy [p{lo,hi}]: take one more character while allowed, fall back to
    stopping here when what follows fails. *)
Fixpoint rep {R : Type} (p : char -> bool) (lo : nat) (hi : option nat)
    (s : jsstring) (i : nat) (k : nat -> jsstring -> option R) : option R :=
  let stop := match lo with O => k i s | S _ => None end in
  match hi with
  | Some O => stop
  | _ =>
    match s with
    | x :: xs =>
      if p x then
        match rep p (pred lo) (pred <$> hi) xs (S i) k with
        | Some r => Some r
        | None => stop
        end
      else stop
    | [] => stop
    end
  end.

Fixpoint m (r : regex) (st : mstate) (k : mstate -> option mstate) : option mstate :=
  match r with
  | Empty => k st
  | Char p =>
    match m_rest st with
    | x :: xs => if p x then k (MState (S (m_pos st)) xs (m_caps st)) else None
    | [] => None
    end
  | Cat r1 r2 => m r1 st (fun st' => m r2 st' k)
  | Alt r1 r2 =>
    match m r1 st k with
    | Some res => Some res
    | None => m r2 st k
    end
  | Rep lo hi p =>
    rep p lo hi (m_rest st) (m_pos st) (fun i s => k (MState i s (m_caps st)))
  | Group i r =>
    m r st (fun st' =>
      k (MState (m_pos st') (m_rest st')
           (<[i := Some (take (m_pos st' - m_pos st) (m_rest st))]> (m_caps st'))))
  | Bol => if decide (m_pos st = O) then k st else None
  | Eol => match m_rest st with [] => k st | _ :: _ => None end
  end.

(** A compiled pattern: its tree and its number of capture groups. *)
Record RegExp : Type := { re_tree : regex; re_groups : nat }.

(** The match array: index 0 is the whole match, index [i] the [i]-th group,
    [None] standing for [undefined]. *)
Definition MatchArray : Type := list (option jsstring).

Fixpoint search (re : RegExp) (s : jsstring) (i : nat) : option MatchArray :=
  match m (re_tree re) (MState i s (replicate (S (re_groups re)) None)) Some with
  | Some st => Some (<[O := Some (take (m_pos st - i) s)]> (m_caps st))
  | None =>
    match s with
    | [] => None
    | _ :: s' => search re s' (S i)
    end
  end.

(** [s.match(re)] for a pattern without the [g] flag: the leftmost match or
    [null]. *)
Definition String_match (s : jsstring) (re : RegExp) : option MatchArray :=
  search re s O.

(** Pattern building blocks. *)
Definition Lit1 (c : char) : regex := Char (N.eqb c).

Definition Lit (s : jsstring) : regex :=
  foldr (fun c r => Cat (Lit1 c) r) Empty s.

(** [Canonicalize] of an [i]-flagged pattern without [u]: the upper-case
    mapping, which never sends a code unit of 128 or more below 128; on the
    ASCII characters of the source's pattern only the ASCII letters fold. *)
Definition Canonicalize (c : char) : char :=
  if (0x61 <=? c) && (c <=? 0x7A) then c - 0x20 else c.

Definition LitI1 (c : char) : regex :=
  Char (fun x => Canonicalize x =? Canonicalize c).

Definition LitI (s : jsstring) : regex :=
  foldr (fun c r => Cat (LitI1 c) r) Empty s.

Definition seq (rs : list regex) : regex := foldr Cat Empty rs.

Fixpoint alts (r : regex) (rs : list regex) : regex :=
  match rs with
  | [] => r
  | r' :: rs' => Alt r (alts r' rs')
  end.

Definition notChar (c : char) : char -> bool := fun x => negb (x =? c).
Definition notWhiteSpace : char -> bool := fun x => negb (isWhiteSpace x).
Definition dot : char -> bool := fun x => negb (isLineTerminator x).


(** ** The patterns of the source *)

(** The message pattern, written here with its pieces spaced out:
    [^  \[  ([^\]]+)  \]  \s*  \[  ([^\]]+)  \]  \s*  ( .* )  $]. *)
Definition messagePattern : RegExp :=
  {| re_tree := seq
       [ Bol;
         Lit1 0x5B; Group 1 (Rep 1 None (notChar 0x5D)); Lit1 0x5D;
         Rep 0 None isWhiteSpace;
         Lit1 0x5B; Group 2 (Rep 1 None (notChar 0x5D)); Lit1 0x5D;
         Rep 0 None isWhiteSpace;
         Group 3 (Rep 0 None dot);
         Eol ];
     re_groups := 3 |}.

Definition s_year : jsstring := Eval vm_compute in js "년".
Definition s_month : jsstring := Eval vm_compute in js "월".
Definition s_day : jsstring := Eval vm_compute in js "일".

(** The date pattern [(\d{4})년\s*(\d{1,2})월\s*(\d{1,2})일\s*(\S+)]. *)
Definition datePattern : RegExp :=
  {| re_tree := seq
       [ Group 1 (Rep 4 (Some 4%nat) isDigit); Lit s_year;
         Rep 0 None isWhiteSpace;
         Group 2 (Rep 1 (Some 2%nat) isDigit); Lit s_month;
         Rep 0 None isWhiteSpace;
         Group 3 (Rep 1 (Some 2%nat) isDigit); Lit s_day;
         Rep 0 None isWhiteSpace;
         Group 4 (Rep 1 None notWhiteSpace) ];
     re_groups := 4 |}.

(** The pattern [\.(pdf|doc|docx|xls|xlsx|ppt|pptx|txt|zip|rar)$] with the
    [i] flag. *)
Definition filePattern : RegExp :=
  {| re_tree := seq
       [ LitI1 0x2E;
         Group 1 (alts (LitI (js "pdf"))
                    (map LitI [js "doc"; js "docx"; js "xls"; js "xlsx"; js "ppt";
                               js "pptx"; js "txt"; js "zip"; js "rar"]));
         Eol ];
     re_groups := 1 |}.

(** ** Exceptions

    The only operation of [parse] that can raise is a method call on a value
    that may be [undefined]: [sender.trim()] and its two siblings, on the
    capture groups of the message pattern. *)
Inductive JSError : Type := TypeError.

Inductive result (A : Type) : Type :=
| Ok (a : A)
| Throw (e : JSError).
Arguments Ok {A} a.
Arguments Throw {A} e.

#[export] Instance result_ret : MRet result := fun A a => Ok a.
#[export] Instance result_bind : MBind result := fun A B f r =>
  match r with
  | Ok a => f a
  | Throw e => Throw e
  end.

(** [v.trim()] on a value that is a string or [undefined]. *)
Definition call_trim (v : option jsstring) : result jsstring :=
  match v with
  | Some s => Ok (trim s)
  | None => Throw TypeError
  end.

(** [`${v}`]: [undefined] prints as the word. *)
Definition ToString (v : option jsstring) : jsstring :=
  match v with
  | Some s => s
  | None => js "undefined"
  end.

(** [arr[i]] on a match array: [undefined] out of range. *)
Definition at_index (arr : MatchArray) (i : nat) : option jsstring :=
  mjoin (arr !! i).

(** ** Data model *)

(** The strings [detectMessageType] returns. *)
Inductive MessageType : Type :=
| Tempty | Tmedia | Temoticon | Tlink | Tfile | Tvoice | Tsystem | Ttext.

(** An object [{type: 'message', sender, time, content, date, messageType, raw}]. *)
Record message : Type := Message {
  sender : jsstring;
  time : jsstring;
  content : jsstring;
  date : jsstring;
  messageType : MessageType;
  raw : jsstring
}.

(** An entry of [chatData.messages]: [{type: 'date', date, raw}] or a message. *)
Inductive event : Type :=
| DateEvent (d : jsstring) (r : jsstring)
| MessageEvent (msg : message).

Record ChatData : Type := mkChatData {
  title : jsstring;
  saveDate : jsstring;
  messages : list event
}.

(** The parser object; [chatData] is its only field. *)
Record KakaoTalkParser : Type := mkParser { chatData : ChatData }.

(** [new KakaoTalkParser()] *)
Definition constructor : KakaoTalkParser :=
  mkParser (mkChatData [] [] []).

(** [this.chatData.messages.push(e)] *)
Definition push (this : KakaoTalkParser) (e : event) : KakaoTalkParser :=
  let c := chatData this in
  mkParser (mkChatData (title c) (saveDate c) (messages c ++ [e])).

Definition set_title (this : KakaoTalkParser) (t : jsstring) : KakaoTalkParser :=
  let c := chatData this in
  mkParser (mkChatData t (saveDate c) (messages c)).

Definition set_saveDate (this : KakaoTalkParser) (d : jsstring) : KakaoTalkParser :=
  let c := chatData this in
  mkParser (mkChatData (title c) d (messages c)).

(** ** String constants of the source *)

Definition LF : jsstring := [0x0A].

Definition s_title_mark : jsstring := Eval vm_compute in js "님과 카카오톡 대화".
Definition s_title_strip : jsstring := Eval vm_compute in js " 님과 카카오톡 대화".
Definition s_save_mark : jsstring := Eval vm_compute in js "저장한 날짜 :".
Definition s_save_strip : jsstring := Eval vm_compute in js "저장한 날짜 : ".
Definition s_dashes : jsstring := Eval vm_compute in js "---------------".

Definition s_photo : jsstring := Eval vm_compute in js "사진".
Definition s_video : jsstring := Eval vm_compute in js "동영상".
Definition s_photos : jsstring := Eval vm_compute in js "사진 여러 장".
Definition s_emoticon : jsstring := Eval vm_compute in js "이모티콘".
Definition s_emoticon_prefix : jsstring := Eval vm_compute in js "이모티콘:".
Definition s_http : jsstring := Eval vm_compute in js "http://".
Definition s_https : jsstring := Eval vm_compute in js "https://".
Definition s_file_mark : jsstring := Eval vm_compute in js "파일:".
Definition s_voice : jsstring := Eval vm_compute in js "음성메시지".
Definition s_joined : jsstring := Eval vm_compute in js "님이 들어왔습니다".
Definition s_left : jsstring := Eval vm_compute in js "님이 나갔습니다".
Definition s_opened : jsstring := Eval vm_compute in js "대화방을 개설했습니다".

(** ** [extractDate] *)

Definition extractDate (line : jsstring) : jsstring :=
  match String_match line datePattern with
  | Some dateMatch =>
    let year := at_index dateMatch 1 in
    let month := at_index dateMatch 2 in
    let day := at_index dateMatch 3 in
    let dayOfWeek := at_index dateMatch 4 in
    ToString year ++ s_year ++ [0x20] ++ ToString month ++ s_month ++ [0x20]
      ++ ToString day ++ s_day ++ [0x20] ++ ToString dayOfWeek
  | None => line
  end.

(** ** [detectMessageType] *)

Definition detectMessageType (content : jsstring) : MessageType :=
  if falsy content then Tempty
  else if streq content s_photo || streq content s_video || streq content s_photos
  then Tmedia
  else if streq content s_emoticon || startsWith content s_emoticon_prefix
  then Temoticon
  else if includes content s_http || includes content s_https
  then Tlink
  else if includes content s_file_mark || bool_decide (is_Some (String_match content filePattern))
  then Tfile
  else if streq content s_voice || includes content s_voice
  then Tvoice
  else if includes content s_joined || includes content s_left || includes content s_opened
  then Tsystem
  else Ttext.

(** ** [parse] *)

(** The variables of the loop: the parser object and the two locals. *)
Record loop : Type := Loop {
  this : KakaoTalkParser;
  currentDate : jsstring;
  currentMessage : option message
}.

(** [if (currentMessage) this.chatData.messages.push(currentMessage)] *)
Definition flush (p : KakaoTalkParser) (cm : option message) : KakaoTalkParser :=
  match cm with
  | Some msg => push p (MessageEvent msg)
  | None => p
  end.

(** One round of the [for] loop, on the line [lines[i]]. *)
Definition parse_line (st : loop) (raw_line : jsstring) : result loop :=
  let line := trim raw_line in
  if falsy line then
    match currentMessage st with
    | Some cm =>
      Ok (Loop (this st) (currentDate st)
            (Some (Message (sender cm) (time cm) (content cm ++ LF) (date cm)
                     (messageType cm) (raw cm ++ LF))))
    | None => Ok st
    end
  else
    let messageMatch := String_match line messagePattern in
    if includes line s_title_mark then
      Ok (Loop (set_title (flush (this st) (currentMessage st))
                  (replace line s_title_strip []))
            (currentDate st) None)
    else if startsWith line s_save_mark then
      Ok (Loop (set_saveDate (flush (this st) (currentMessage st))
                  (replace line s_save_strip []))
            (currentDate st) None)
    else if startsWith line s_dashes && includes line s_year && includes line s_month then
      let d := extractDate line in
      Ok (Loop (push (flush (this st) (currentMessage st)) (DateEvent d line)) d None)
    else
      match messageMatch with
      | Some arr =>
        let p := flush (this st) (currentMessage st) in
        sender' ← call_trim (at_index arr 1);
        time' ← call_trim (at_index arr 2);
        content' ← call_trim (at_index arr 3);
        content'' ← call_trim (at_index arr 3);
        Ok (Loop p (currentDate st)
              (Some (Message sender' time' content' (currentDate st)
                       (detectMessageType content'') line)))
      | None =>
        match currentMessage st with
        | Some cm =>
          let content' := content cm ++ LF ++ line in
          Ok (Loop (this st) (currentDate st)
                (Some (Message (sender cm) (time cm) content' (date cm)
                         (detectMessageType content') (raw cm ++ LF ++ line))))
        | None => Ok st
        end
      end.

Fixpoint for_lines (lines : list jsstring) (st : loop) : result loop :=
  match lines with
  | [] => Ok st
  | l :: ls => st' ← parse_line st l; for_lines ls st'
  end.

(** [parse(content)]: the parser after the call; the value returned to the
    caller is [this.chatData], the very object the parser keeps. *)
Definition parse (p : KakaoTalkParser) (content : jsstring) : result KakaoTalkParser :=
  st ← for_lines (split 0x0A content) (Loop p [] None);
  Ok (flush (this st) (currentMessage st)).

(** ** Numbers

    JavaScript numbers are IEEE 754 binary64 values; [/] and [*] round to
    nearest, ties to even. *)
Definition Number : Type := spec_float.

(** The number an array length denotes (a length is below 2^32, hence exact). *)
Definition Number_of_nat (n : nat) : Number :=
  binary_normalize 53 1024 (Z.of_nat n) 0 false.

Definition Number_of_Z (z : Z) : Number :=
  binary_normalize 53 1024 z 0 false.

Definition Number_div (x y : Number) : Number := SFdiv 53 1024 x y.
Definition Number_mul (x y : Number) : Number := SFmul 53 1024 x y.

(** [Math.round]: the closest integer, the larger one at a tie; values that
    are not finite, and integers, are returned as they are; a result of zero
    keeps the sign of the argument. *)
Definition Math_round (x : Number) : Number :=
  match x with
  | S754_finite s mx e =>
    if (0 <=? e)%Z then x
    else
      let k := (- e)%Z in
      let n := ((cond_Zopp s (Zpos mx) * 2 + 2 ^ k) / 2 ^ (k + 1))%Z in
      match n with
      | Z0 => S754_zero s
      | _ => Number_of_Z n
      end
  | _ => x
  end.

(** ** [getStats] *)

(** An entry [{count, percentage}] of the per-sender statistics. *)
Record SenderStat : Type := mkSenderStat {
  count : nat;
  percentage : Number
}.

(** The object [stats] of [getSenderStats], a plain object created by
    [{}]: its own properties, all of them sender records, and its
    prototype, which is [Object.prototype] ([None]) until an assignment to
    the key ['__proto__'] replaces it by a sender record. *)
Record JSObject : Type := mkObject {
  own : gmap jsstring SenderStat;
  prototype : option SenderStat
}.

(** [{}] *)
Definition Object_empty : JSObject := mkObject ∅ None.

Definition s_proto : jsstring := Eval vm_compute in js "__proto__".
Definition s_count : jsstring := Eval vm_compute in js "count".
Definition s_percentage : jsstring := Eval vm_compute in js "percentage".

(** The methods every plain object inherits from [Object.prototype]. *)
Definition ObjectPrototype_methods : list jsstring :=
  [js "constructor"; js "hasOwnProperty"; js "isPrototypeOf";
   js "propertyIsEnumerable"; js "toLocaleString"; js "toString"; js "valueOf";
   js "__defineGetter__"; js "__defineSetter__"; js "__lookupGetter__";
   js "__lookupSetter__"].

(** [o[key] = v] for a record [v]: the key ['__proto__'] reaches the setter
    inherited from [Object.prototype], which makes [v] the prototype of [o]
    and adds no own property; every other key becomes (or overwrites) an own
    property. *)
Definition PutValue (o : JSObject) (key : jsstring) (v : SenderStat) : JSObject :=
  if streq key s_proto then mkObject (own o) (Some v)
  else mkObject (<[key := v]> (own o)) (prototype o).

(** What reading a property of [stats] can give. *)
Inductive JSValue : Type :=
| VUndefined
| VNumber (x : Number)
| VRecord (r : SenderStat)
| VObjectPrototype
| VBuiltin (name : jsstring).

(** A property found on [Object.prototype] itself. *)
Definition inherited (key : jsstring) : JSValue :=
  if bool_decide (key ∈ ObjectPrototype_methods) then VBuiltin key else VUndefined.

(** [o[key]]: an own property first; then the prototype chain, where
    ['__proto__'] gives the prototype itself, a sender record set as
    prototype shows its two fields, and [Object.prototype] its methods. *)
Definition GetValue (o : JSObject) (key : jsstring) : JSValue :=
  match own o !! key with
  | Some r => VRecord r
  | None =>
    if streq key s_proto then
      match prototype o with
      | Some r => VRecord r
      | None => VObjectPrototype
      end
    else
      match prototype o with
      | Some r =>
        if streq key s_count then VNumber (Number_of_nat (count r))
        else if streq key s_percentage then VNumber (percentage r)
        else inherited key
      | None => inherited key
      end
  end.

(** [Object.keys(o)] as a set: the own properties. *)
Definition Object_keys (o : JSObject) : gset jsstring := dom (own o).

Record Stats : Type := mkStats {
  totalMessages : nat;
  totalDays : nat;
  participants : nat;
  senderStats : JSObject
}.

(** [msgs.filter(msg => msg.type === 'message')]: the entries that are
    messages, as messages. *)
Definition as_message (e : event) : option message :=
  match e with
  | MessageEvent msg => Some msg
  | DateEvent _ _ => None
  end.

Definition filter_message (evs : list event) : list message := omap as_message evs.

(** [msgs.filter(msg => msg.type === 'date')] *)
Definition is_date (e : event) : bool :=
  match e with
  | DateEvent _ _ => true
  | MessageEvent _ => false
  end.

Definition filter_date (evs : list event) : list event := List.filter is_date evs.

(** [[...new Set(xs)]]: each element once, in the order of first occurrence. *)
Definition Set_add (acc : list jsstring) (x : jsstring) : list jsstring :=
  if bool_decide (x ∈ acc) then acc else acc ++ [x].

Definition Set_spread (xs : list jsstring) : list jsstring := foldl Set_add [] xs.

(** [messages.filter(msg => msg.sender === sender)] *)
Definition filter_sender (msgs : list message) (s : jsstring) : list message :=
  List.filter (fun msg => streq (sender msg) s) msgs.

(** The record [getSenderStats] builds for a sender. *)
Definition sender_record (msgs : list message) (s : jsstring) : SenderStat :=
  let senderMessages := filter_sender msgs s in
  mkSenderStat (length senderMessages)
    (Math_round
       (Number_mul
          (Number_div (Number_of_nat (length senderMessages))
                      (Number_of_nat (length msgs)))
          (Number_of_nat 100))).

(** [getSenderStats(messages, senders)]: [stats] starts as [{}] and is
    assigned at every sender in turn. *)
Definition getSenderStats (msgs : list message) (senders : list jsstring) : JSObject :=
  foldl (fun stats s => PutValue stats s (sender_record msgs s)) Object_empty senders.

Definition getStats (p : KakaoTalkParser) : Stats :=
  let msgs := filter_message (messages (chatData p)) in
  let senders := Set_spread (map sender msgs) in
  mkStats (length msgs)
          (length (filter_date (messages (chatData p))))
          (length senders)
          (getSenderStats msgs senders).

(** ** What a successful match looks like

    A declarative reading of the patterns: [Match r st st'] says that [r]
    can consume the input of [st] up to [st']. The matcher is sound for it
    ([m_sound]) and explores every such way ([m_complete]). *)
Fixpoint Match (r : regex) (st st' : mstate) : Prop :=
  match r with
  | Empty => st' = st
  | Char p =>
    ∃ x xs, m_rest st = x :: xs ∧ p x = true
            ∧ st' = MState (S (m_pos st)) xs (m_caps st)
  | Cat r1 r2 => ∃ st1, Match r1 st st1 ∧ Match r2 st1 st'
  | Alt r1 r2 => Match r1 st st' ∨ Match r2 st st'
  | Rep lo hi p =>
    ∃ n : nat, (lo ≤ n)%nat ∧ (∀ h : nat, hi = Some h → (n ≤ h)%nat)
         ∧ (n ≤ length (m_rest st))%nat
         ∧ Forall (λ x, p x = true) (take n (m_rest st))
         ∧ st' = MState (m_pos st + n) (drop n (m_rest st)) (m_caps st)
  | Group i r =>
    ∃ st1, Match r st st1
         ∧ st' = MState (m_pos st1) (m_rest st1)
                   (<[i := Some (take (m_pos st1 - m_pos st) (m_rest st))]> (m_caps st1))
  | Bol => m_pos st = O ∧ st' = st
  | Eol => m_rest st = [] ∧ st' = st
  end.

(** ** The loop body as a step relation

    The seven ways a round of the loop can go, in the order of its tests;
    [parse_line_step] derives them from [parse_line]. *)
Definition is_title_line (line : jsstring) : bool := includes line s_title_mark.

Definition is_save_line (line : jsstring) : bool := startsWith line s_save_mark.

Definition is_date_line (line : jsstring) : bool :=
  startsWith line s_dashes && includes line s_year && includes line s_month.

(** [currentMessage.content += '\n'; currentMessage.raw += '\n'] *)
Definition append_blank (cm : message) : message :=
  Message (sender cm) (time cm) (content cm ++ LF) (date cm) (messageType cm)
          (raw cm ++ LF).

(** The three statements of the continuation branch. *)
Definition append_line (line : jsstring) (cm : message) : message :=
  Message (sender cm) (time cm) (content cm ++ LF ++ line) (date cm)
          (detectMessageType (content cm ++ LF ++ line)) (raw cm ++ LF ++ line).

Inductive line_step (st : loop) (raw_line : jsstring) : loop -> Prop :=
| step_blank :
    trim raw_line = [] →
    line_step st raw_line
      (Loop (this st) (currentDate st) (append_blank <$> currentMessage st))
| step_title :
    trim raw_line ≠ [] →
    is_title_line (trim raw_line) = true →
    line_step st raw_line
      (Loop (set_title (flush (this st) (currentMessage st))
               (replace (trim raw_line) s_title_strip []))
            (currentDate st) None)
| step_save :
    trim raw_line ≠ [] →
    is_title_line (trim raw_line) = false →
    is_save_line (trim raw_line) = true →
    line_step st raw_line
      (Loop (set_saveDate (flush (this st) (currentMessage st))
               (replace (trim raw_line) s_save_strip []))
            (currentDate st) None)
| step_date :
    trim raw_line ≠ [] →
    is_title_line (trim raw_line) = false →
    is_save_line (trim raw_line) = false →
    is_date_line (trim raw_line) = true →
    line_step st raw_line
      (Loop (push (flush (this st) (currentMessage st))
               (DateEvent (extractDate (trim raw_line)) (trim raw_line)))
            (extractDate (trim raw_line)) None)
| step_message (arr : MatchArray) (a b c : jsstring) :
    trim raw_line ≠ [] →
    is_title_line (trim raw_line) = false →
    is_save_line (trim raw_line) = false →
    is_date_line (trim raw_line) = false →
    String_match (trim raw_line) messagePattern = Some arr →
    at_index arr 1 = Some a → at_index arr 2 = Some b → at_index arr 3 = Some c →
    line_step st raw_line
      (Loop (flush (this st) (currentMessage st)) (currentDate st)
            (Some (Message (trim a) (trim b) (trim c) (currentDate st)
                     (detectMessageType (trim c)) (trim raw_line))))
| step_continue :
    trim raw_line ≠ [] →
    is_title_line (trim raw_line) = false →
    is_save_line (trim raw_line) = false →
    is_date_line (trim raw_line) = false →
    String_match (trim raw_line) messagePattern = None →
    line_step st raw_line
      (Loop (this st) (currentDate st)
            (append_line (trim raw_line) <$> currentMessage st)).

(** ** Vocabulary of the statements *)

(** The date in force after a sequence of events that started under [d]:
    the [date] of the last date entry, [d] when there is none. *)
Definition date_after (d : jsstring) (evs : list event) : jsstring :=
  foldl (fun d e => match e with
                    | DateEvent d' _ => d'
                    | MessageEvent _ => d
                    end) d evs.

(** The display text of the nearest date entry among [evs], the empty
    string when there is none. *)
Definition nearest_date (evs : list event) : jsstring := date_after [] evs.

(** Every message of [evs] carries the date in force where it stands. *)
Fixpoint dated_from (d : jsstring) (evs : list event) : Prop :=
  match evs with
  | [] => True
  | DateEvent d' _ :: evs' => dated_from d' evs'
  | MessageEvent msg :: evs' => date msg = d ∧ dated_from d evs'
  end.

(** The normalized day string: digit groups for year, month and day, then
    the weekday token. *)
Definition normalized_date (d : jsstring) : Prop :=
  ∃ year month day dayOfWeek : jsstring,
    length year = 4%nat ∧ Forall (λ x, isDigit x = true) year
    ∧ (1 ≤ length month ≤ 2)%nat ∧ Forall (λ x, isDigit x = true) month
    ∧ (1 ≤ length day ≤ 2)%nat ∧ Forall (λ x, isDigit x = true) day
    ∧ dayOfWeek ≠ [] ∧ Forall (λ x, isWhiteSpace x = false) dayOfWeek
    ∧ d = year ++ s_year ++ [0x20] ++ month ++ s_month ++ [0x20]
            ++ day ++ s_day ++ [0x20] ++ dayOfWeek.

(** The classifier as a table read from the top, the first rule that applies
    giving the kind. *)
Definition first_match (rules : list ((jsstring -> bool) * MessageType))
    (otherwise : MessageType) (content : jsstring) : MessageType :=
  match List.find (fun rule => fst rule content) rules with
  | Some rule => snd rule
  | None => otherwise
  end.

Definition has_url (content : jsstring) : bool :=
  includes content s_http || includes content s_https.

Definition has_extension (content : jsstring) : bool :=
  bool_decide (is_Some (String_match content filePattern)).

(** The document and archive extensions. *)
Definition extensions : list jsstring :=
  [js "pdf"; js "doc"; js "docx"; js "xls"; js "xlsx"; js "ppt"; js "pptx";
   js "txt"; js "zip"; js "rar"].

(** The content ends with a dot and one of the extensions, letter case
    apart. *)
Definition ends_with_extension (content : jsstring) : bool :=
  bool_decide
    (Exists (λ ext, (0x2E :: (Canonicalize <$> ext)) `suffix_of` (Canonicalize <$> content))
            extensions).

Definition documented_rules : list ((jsstring -> bool) * MessageType) :=
  [ (falsy, Tempty);
    (fun c => streq c s_photo || streq c s_video || streq c s_photos, Tmedia);
    (fun c => streq c s_emoticon || startsWith c s_emoticon_prefix, Temoticon);
    (has_url, Tlink);
    (fun c => includes c s_file_mark || ends_with_extension c, Tfile);
    (fun c => streq c s_voice || includes c s_voice, Tvoice);
    (fun c => includes c s_joined || includes c s_left || includes c s_opened, Tsystem) ].

(** The percentage in exact arithmetic: [100 * c / t] rounded to the closest
    integer, the larger one at a tie. *)
Definition exact_percentage (c t : nat) : Z :=
  ((2 * (100 * Z.of_nat c) + Z.of_nat t) / (2 * Z.of_nat t))%Z.

(** The invariant of the loop for dates: the events pushed so far are
    dated, [currentDate] is the date in force after them, and the open
    message carries it. *)
Definition loop_dated (st : loop) : Prop :=
  dated_from [] (messages (chatData (this st)))
  ∧ currentDate st = nearest_date (messages (chatData (this st)))
  ∧ ∀ cm, currentMessage st = Some cm → date cm = currentDate st.

(** Every date entry stores what [extractDate] made of the line it keeps
    in [raw]. *)
Definition extracted (e : event) : Prop :=
  match e with
  | DateEvent d r => d = extractDate r
  | MessageEvent _ => True
  end.

(** The value a header field ends with: each header line overwrites it, so
    the last one stays; [initial] when there is none. *)
Definition header_value (is_header : jsstring -> bool) (strip initial : jsstring)
    (lines : list jsstring) : jsstring :=
  match last (List.filter is_header lines) with
  | Some l => replace l strip []
  | None => initial
  end.

(** A line that is none of title header, save-date header, date separator
    and message header. *)
Definition unmatched (line : jsstring) : Prop :=
  is_title_line line = false ∧ is_save_line line = false
  ∧ is_date_line line = false ∧ String_match line messagePattern = None.

(** ** Sample inputs *)

Definition sample_message (who text : string) : event :=
  MessageEvent (Message (js who) (js "10:00") (js text) [] Ttext
                  (js "[" ++ js who ++ js "] [10:00] " ++ js text)).

(** Three messages from A and one from B. *)
Definition three_and_one : KakaoTalkParser :=
  mkParser (mkChatData (js "A") []
              [ sample_message "A" "1"; sample_message "A" "2";
                sample_message "B" "3"; sample_message "A" "4" ]).

(** Twenty-nine messages from A and one hundred and seventy-one from B. *)
Definition two_hundred : KakaoTalkParser :=
  mkParser (mkChatData (js "A") []
              (replicate 29 (sample_message "A" "a")
               ++ replicate 171 (sample_message "B" "b"))).

Definition sample_separator : jsstring :=
  js "--------------- 2025년 5월 20일 화요일 ---------------".

Definition sample_day : jsstring := js "2025년 5월 20일 화요일".

Definition sample_header : jsstring := js "[A] [10:00] hello".

Definition sample_hello : message :=
  Message (js "A") (js "10:00") (js "hello") sample_day Ttext sample_header.

(** A separator line followed by one message. *)
Definition sample_text : jsstring := sample_separator ++ LF ++ sample_header.

Definition sample_parsed : KakaoTalkParser :=
  mkParser (mkChatData [] []
              [DateEvent sample_day sample_separator; MessageEvent sample_hello]).

(** A message open under no date, as the loop holds it after the line
    [sample_header]. *)
Definition sample_unfinished : message :=
  Message (js "A") (js "10:00") (js "hello") [] Ttext sample_header.

Definition sample_open : loop := Loop constructor [] (Some sample_unfinished).

Definition sample_url : jsstring := js "https://example.com/report.pdf".

(** One message whose sender is named [__proto__]. *)
Definition proto_header : jsstring := js "[__proto__] [10:00] hi".

Definition proto_parsed : KakaoTalkParser :=
  mkParser (mkChatData [] []
              [MessageEvent
                 (Message s_proto (js "10:00") (js "hi") [] Ttext proto_header)]).


(** A separator line whose text is not a date. *)
Definition dateless_separator : jsstring :=
  js "--------------- 년 월 ---------------".

Definition two_titles : jsstring :=
  js "A 님과 카카오톡 대화" ++ LF ++ js "B 님과 카카오톡 대화".

Definition emoticon_with_url : jsstring := js "이모티콘:http://a.pdf".

(** * Properties *)

(** ** The matcher *)

Lemma rep_sound {R : Type} (p : char -> bool) (s : jsstring) :
  ∀ (lo : nat) (hi : option nat) (i : nat) (k : nat -> jsstring -> option R) (res : R),
    rep p lo hi s i k = Some res →
    ∃ n : nat, (lo ≤ n)%nat ∧ (∀ h : nat, hi = Some h → (n ≤ h)%nat)
      ∧ (n ≤ length s)%nat
      ∧ Forall (λ x, p x = true) (take n s)
      ∧ k (i + n)%nat (drop n s) = Some res.
Proof.
  induction s as [|x xs IH]; intros lo hi i k res H.
  - assert (Hstop : match lo with O => k i [] | S _ => None end = Some res).
    { simpl in H. destruct hi as [[|h]|]; exact H. }
    destruct lo; [|discriminate].
    exists O. rewrite Nat.add_0_r. repeat split; auto with lia.
  - assert (Hcases :
      (match lo with O => k i (x :: xs) | S _ => None end = Some res)
      ∨ (hi ≠ Some O ∧ p x = true
         ∧ rep p (pred lo) (pred <$> hi) xs (S i) k = Some res)).
    { simpl in H. destruct hi as [[|h]|]; [left; exact H| |].
      - destruct (p x) eqn:Hp; [|left; exact H].
        destruct (rep p (pred lo) (pred <$> Some (S h)) xs (S i) k) eqn:Hr.
        + right. repeat split; [discriminate|congruence].
        + left; exact H.
      - destruct (p x) eqn:Hp; [|left; exact H].
        destruct (rep p (pred lo) (pred <$> None) xs (S i) k) eqn:Hr.
        + right. repeat split; [discriminate|congruence].
        + left; exact H. }
    destruct Hcases as [Hstop|(Hhi & Hp & Hr)].
    + destruct lo; [|discriminate].
      exists O. rewrite Nat.add_0_r. repeat split; simpl; auto with lia.
    + apply IH in Hr as (n & Hlo & Hmax & Hlen & Hall & Hk).
      exists (S n). repeat split.
      * lia.
      * intros h ->. destruct h as [|h]; [done|].
        specialize (Hmax h eq_refl). lia.
      * simpl; lia.
      * simpl. constructor; assumption.
      * simpl. replace (i + S n)%nat with (S i + n)%nat by lia. exact Hk.
Qed.

Lemma m_sound (r : regex) :
  ∀ (st : mstate) (k : mstate -> option mstate) (res : mstate),
    m r st k = Some res → ∃ st', Match r st st' ∧ k st' = Some res.
Proof.
  induction r as [|p|r1 IH1 r2 IH2|r1 IH1 r2 IH2|lo hi p|i r IH| |];
    intros st k res H; simpl in H.
  - exists st. split; [reflexivity|exact H].
  - destruct (m_rest st) as [|x xs] eqn:Hrest; [discriminate|].
    destruct (p x) eqn:Hp; [|discriminate].
    eexists. split; [|exact H]. simpl. exists x, xs. auto.
  - apply IH1 in H as (st1 & H1 & H).
    apply IH2 in H as (st2 & H2 & H).
    exists st2. split; [|exact H]. exists st1. auto.
  - destruct (m r1 st k) as [res1|] eqn:H1.
    + inversion H; subst res1.
      apply IH1 in H1 as (st' & HM & Hk). exists st'. simpl. auto.
    + apply IH2 in H as (st' & HM & Hk). exists st'. simpl. auto.
  - apply rep_sound in H as (n & Hlo & Hhi & Hlen & Hall & Hk).
    eexists. split; [|exact Hk]. exists n. auto.
  - apply IH in H as (st1 & HM & Hk).
    eexists. split; [|exact Hk]. exists st1. auto.
  - destruct (decide (m_pos st = O)); [|discriminate].
    exists st. simpl. auto.
  - destruct (m_rest st) eqn:Hrest; [|discriminate].
    exists st. simpl. auto.
Qed.

(** A match only moves forward: what is left is a suffix of what was there. *)
Lemma Match_advance (r : regex) :
  ∀ st st', Match r st st' →
    ∃ n : nat, m_pos st' = (m_pos st + n)%nat ∧ (n ≤ length (m_rest st))%nat
      ∧ m_rest st' = drop n (m_rest st).
Proof.
  induction r as [|p|r1 IH1 r2 IH2|r1 IH1 r2 IH2|lo hi p|i r IH| |];
    intros st st' H; simpl in H.
  - subst. exists O. rewrite Nat.add_0_r. auto with lia.
  - destruct H as (x & xs & Hrest & _ & ->).
    exists 1%nat. rewrite Hrest. simpl. rewrite drop_0. split; [lia|split; [lia|done]].
  - destruct H as (st1 & H1 & H2).
    apply IH1 in H1 as (n1 & Hp1 & Hl1 & Hr1).
    apply IH2 in H2 as (n2 & Hp2 & Hl2 & Hr2).
    exists (n1 + n2)%nat. rewrite Hr1 in Hl2, Hr2. rewrite length_drop in Hl2.
    rewrite drop_drop in Hr2. split; [lia|split; [lia|done]].
  - destruct H as [H|H]; [apply IH1 in H|apply IH2 in H]; exact H.
  - destruct H as (n & _ & _ & Hlen & _ & ->). exists n. simpl. auto.
  - destruct H as (st1 & H1 & ->). simpl. apply IH in H1. exact H1.
  - destruct H as [_ ->]. exists O. rewrite Nat.add_0_r. auto with lia.
  - destruct H as [_ ->]. exists O. rewrite Nat.add_0_r. auto with lia.
Qed.

(** A capture group around a quantified class records exactly the characters
    the quantifier took. *)
Lemma Match_group_rep (i lo : nat) (hi : option nat) (p : char -> bool) (st st' : mstate) :
  Match (Group i (Rep lo hi p)) st st' →
  ∃ n : nat, (lo ≤ n)%nat ∧ (∀ h : nat, hi = Some h → (n ≤ h)%nat)
    ∧ (n ≤ length (m_rest st))%nat
    ∧ Forall (λ x, p x = true) (take n (m_rest st))
    ∧ st' = MState (m_pos st + n) (drop n (m_rest st))
              (<[i := Some (take n (m_rest st))]> (m_caps st)).
Proof.
  simpl. intros (st1 & (n & Hlo & Hhi & Hlen & Hall & ->) & ->). simpl.
  exists n. replace (m_pos st + n - m_pos st)%nat with n by lia. auto 6.
Qed.

(** The leftmost-match search returns the captures of a successful run of
    the matcher at some start position. *)
Lemma search_sound (re : RegExp) (s : jsstring) :
  ∀ (i : nat) (arr : MatchArray),
    search re s i = Some arr →
    ∃ (pre s' : jsstring) (st : mstate),
      s = pre ++ s'
      ∧ Match (re_tree re)
          (MState (i + length pre) s' (replicate (S (re_groups re)) None)) st
      ∧ arr = <[O := Some (take (m_pos st - (i + length pre)) s')]> (m_caps st).
Proof.
  induction s as [|c s IH]; intros i arr H; simpl in H.
  - destruct (m (re_tree re) _ Some) as [st|] eqn:Hm; [|discriminate].
    inversion H; subst arr. apply m_sound in Hm as (st' & HM & Hk).
    inversion Hk; subst st'. exists [], [], st. simpl. rewrite Nat.add_0_r. auto.
  - destruct (m (re_tree re) _ Some) as [st|] eqn:Hm.
    + inversion H; subst arr. apply m_sound in Hm as (st' & HM & Hk).
      inversion Hk; subst st'. exists [], (c :: s), st. simpl. rewrite Nat.add_0_r. auto.
    + apply IH in H as (pre & s' & st & -> & HM & ->).
      exists (c :: pre), s', st. simpl.
      replace (i + S (length pre))%nat with (S i + length pre)%nat by lia. auto.
Qed.

(** Conversely the matcher tries every way the declarative reading allows:
    if some way lets the continuation succeed, the matcher succeeds. *)
Lemma rep_complete {R : Type} (p : char -> bool) (s : jsstring) :
  ∀ (lo : nat) (hi : option nat) (i : nat) (k : nat -> jsstring -> option R) (n : nat),
    (lo ≤ n)%nat → (∀ h : nat, hi = Some h → (n ≤ h)%nat) → (n ≤ length s)%nat →
    Forall (λ x, p x = true) (take n s) →
    is_Some (k (i + n)%nat (drop n s)) →
    is_Some (rep p lo hi s i k).
Proof.
  induction s as [|x xs IH]; intros lo hi i k n Hlo Hhi Hlen Hall Hk.
  - simpl in Hlen. assert (n = O) by lia. subst n.
    assert (lo = O) by lia. subst lo. rewrite Nat.add_0_r in Hk. simpl in Hk.
    simpl. by destruct hi as [[|h]|].
  - destruct n as [|n].
    + assert (lo = O) by lia. subst lo. rewrite Nat.add_0_r in Hk. simpl in Hk.
      simpl. destruct hi as [[|h]|]; [done| |].
      * destruct (p x); [|done]. by destruct (rep p _ _ xs (S i) k).
      * destruct (p x); [|done]. by destruct (rep p _ _ xs (S i) k).
    + simpl in Hall, Hk, Hlen. apply Forall_cons in Hall as [Hx Hall].
      assert (Hrec : is_Some (rep p (pred lo) (pred <$> hi) xs (S i) k)).
      { apply (IH _ _ _ _ n); [lia| |lia|exact Hall|].
        - intros h Hh. destruct hi as [h'|]; [|discriminate].
          simpl in Hh. inversion Hh; subst h. specialize (Hhi h' eq_refl). lia.
        - replace (S i + n)%nat with (i + S n)%nat by lia. exact Hk. }
      destruct Hrec as [r Hr]. simpl.
      destruct hi as [[|h]|].
      * specialize (Hhi O eq_refl). lia.
      * rewrite Hx, Hr. done.
      * rewrite Hx, Hr. done.
Qed.

Lemma m_complete (r : regex) :
  ∀ (st st' : mstate) (k : mstate -> option mstate),
    Match r st st' → is_Some (k st') → is_Some (m r st k).
Proof.
  induction r as [|p|r1 IH1 r2 IH2|r1 IH1 r2 IH2|lo hi p|i r IH| |];
    intros st st' k HM Hk; simpl in HM; simpl.
  - by subst.
  - destruct HM as (x & xs & -> & -> & ->). exact Hk.
  - destruct HM as (st1 & H1 & H2).
    eapply IH1; [exact H1|]. eapply IH2; [exact H2|exact Hk].
  - destruct HM as [H1|H2].
    + destruct (IH1 _ _ _ H1 Hk) as [res ->]. done.
    + destruct (m r1 st k); [done|]. eapply IH2; [exact H2|exact Hk].
  - destruct HM as (n & Hlo & Hhi & Hlen & Hall & ->).
    by apply (rep_complete p (m_rest st) lo hi (m_pos st) _ n).
  - destruct HM as (st1 & H1 & ->). eapply IH; [exact H1|exact Hk].
  - destruct HM as [-> ->]. simpl. exact Hk.
  - destruct HM as [-> ->]. exact Hk.
Qed.

Lemma search_complete (re : RegExp) (pre : jsstring) :
  ∀ (i : nat) (s' : jsstring) (st : mstate),
    Match (re_tree re)
      (MState (i + length pre) s' (replicate (S (re_groups re)) None)) st →
    is_Some (search re (pre ++ s') i).
Proof.
  induction pre as [|c pre IH]; intros i s' st HM; simpl in *.
  - rewrite Nat.add_0_r in HM.
    destruct (m_complete _ _ _ Some HM) as [res Hres]; [done|].
    destruct s'; simpl; by rewrite Hres.
  - destruct (m (re_tree re) _ Some); [done|].
    apply (IH (S i) s' st).
    by replace (S i + length pre)%nat with (i + S (length pre))%nat by lia.
Qed.

(** Whenever the message pattern matches, its three groups took part in the
    match: none of them is [undefined]. *)
Lemma messagePattern_groups (line : jsstring) (arr : MatchArray) :
  String_match line messagePattern = Some arr →
  ∃ a b c, at_index arr 1 = Some a ∧ at_index arr 2 = Some b ∧ at_index arr 3 = Some c.
Proof.
  intros H. apply search_sound in H as (pre & s' & st & _ & HM & ->).
  unfold messagePattern, seq in HM.
  cbn [re_tree re_groups foldr Match] in HM.
  destruct HM as (s1 & [_ ->] & s2 & (x2 & xs2 & _ & _ & ->) & s3 & H1
                  & s4 & (x4 & xs4 & _ & _ & ->) & s5 & (n5 & _ & _ & _ & _ & ->)
                  & s6 & (x6 & xs6 & _ & _ & ->) & s7 & H2
                  & s8 & (x8 & xs8 & _ & _ & ->) & s9 & (n9 & _ & _ & _ & _ & ->)
                  & s10 & H3 & s11 & [_ ->] & ->).
  apply Match_group_rep in H1 as (n1 & _ & _ & _ & _ & ->).
  apply Match_group_rep in H2 as (n2 & _ & _ & _ & _ & ->).
  apply Match_group_rep in H3 as (n3 & _ & _ & _ & _ & ->).
  cbn. by repeat eexists.
Qed.

(** ** [parse] never raises *)

Lemma parse_line_ok (st : loop) (raw_line : jsstring) :
  ∃ st', parse_line st raw_line = Ok st'.
Proof.
  unfold parse_line.
  destruct (falsy (trim raw_line)).
  { destruct (currentMessage st); eauto. }
  destruct (includes (trim raw_line) s_title_mark); [eauto|].
  destruct (startsWith (trim raw_line) s_save_mark); [eauto|].
  destruct (startsWith (trim raw_line) s_dashes && includes (trim raw_line) s_year
            && includes (trim raw_line) s_month); [eauto|].
  destruct (String_match (trim raw_line) messagePattern) as [arr|] eqn:Hm.
  - apply messagePattern_groups in Hm as (a & b & c & -> & -> & ->).
    simpl. eauto.
  - destruct (currentMessage st); eauto.
Qed.

Lemma for_lines_ok (lines : list jsstring) :
  ∀ st, ∃ st', for_lines lines st = Ok st'.
Proof.
  induction lines as [|l ls IH]; intros st; simpl.
  - eauto.
  - destruct (parse_line_ok st l) as [st1 ->]. simpl. apply IH.
Qed.

Lemma parse_ok (p : KakaoTalkParser) (content : jsstring) :
  ∃ p', parse p content = Ok p'.
Proof.
  unfold parse.
  destruct (for_lines_ok (split 0x0A content) (Loop p [] None)) as [st ->].
  simpl. eauto.
Qed.

(** ** The loop body, case by case *)

Lemma falsy_nil (s : jsstring) : falsy s = true ↔ s = [].
Proof. destruct s; simpl; split; intros; congruence. Qed.

Lemma parse_line_step (st : loop) (raw_line : jsstring) (st' : loop) :
  parse_line st raw_line = Ok st' → line_step st raw_line st'.
Proof.
  unfold parse_line. intros H.
  destruct (falsy (trim raw_line)) eqn:Hf.
  { apply falsy_nil in Hf.
    destruct st as [p d [cm|]]; simpl in H; inversion H; subst st';
      exact (step_blank _ _ Hf). }
  assert (Hne : trim raw_line ≠ []).
  { intros E. apply falsy_nil in E. congruence. }
  destruct (includes (trim raw_line) s_title_mark) eqn:Ht.
  { inversion H; subst st'. by apply step_title. }
  destruct (startsWith (trim raw_line) s_save_mark) eqn:Hs.
  { inversion H; subst st'. by apply step_save. }
  destruct (startsWith (trim raw_line) s_dashes && includes (trim raw_line) s_year
            && includes (trim raw_line) s_month) eqn:Hd.
  { inversion H; subst st'. by apply step_date. }
  destruct (String_match (trim raw_line) messagePattern) as [arr|] eqn:Hm.
  - destruct (messagePattern_groups _ _ Hm) as (a & b & c & Ha & Hb & Hc).
    rewrite Ha, Hb, Hc in H. simpl in H. inversion H; subst st'.
    by eapply step_message.
  - destruct st as [p d [cm|]]; simpl in H; inversion H; subst st';
      exact (step_continue _ _ Hne Ht Hs Hd Hm).
Qed.

(** ** Dates of messages *)

Lemma date_after_app (d : jsstring) (evs evs' : list event) :
  date_after d (evs ++ evs') = date_after (date_after d evs) evs'.
Proof. unfold date_after. apply foldl_app. Qed.

Lemma date_after_messages (d : jsstring) (evs : list event) :
  Forall (λ e, is_date e = false) evs → date_after d evs = d.
Proof.
  induction 1 as [|[d' r|msg] evs He _ IH]; simpl; [done|discriminate|exact IH].
Qed.

(** [nearest_date] is what its name says: the text of the last date entry,
    and the empty string when there is no date entry. *)
Lemma nearest_date_last (pre post : list event) (d r : jsstring) :
  Forall (λ e, is_date e = false) post →
  nearest_date (pre ++ DateEvent d r :: post) = d.
Proof.
  intros H. unfold nearest_date. rewrite date_after_app. simpl.
  by apply date_after_messages.
Qed.

Lemma nearest_date_none (evs : list event) :
  Forall (λ e, is_date e = false) evs → nearest_date evs = [].
Proof. apply date_after_messages. Qed.

Lemma dated_from_app (evs evs' : list event) :
  ∀ d, dated_from d (evs ++ evs') ↔ dated_from d evs ∧ dated_from (date_after d evs) evs'.
Proof.
  induction evs as [|[d' r|msg] evs IH]; intros d; simpl.
  - tauto.
  - apply IH.
  - rewrite IH. tauto.
Qed.

Lemma dated_from_lookup (d : jsstring) (evs pre post : list event) (msg : message) :
  dated_from d evs → evs = pre ++ MessageEvent msg :: post →
  date msg = date_after d pre.
Proof.
  intros H ->. apply dated_from_app in H as [_ H]. simpl in H. tauto.
Qed.

Lemma flush_dated (p : KakaoTalkParser) (d : jsstring) (cm : option message) :
  loop_dated (Loop p d cm) → loop_dated (Loop (flush p cm) d None).
Proof.
  intros (Hev & Hd & Hcm). simpl in *.
  destruct cm as [msg|]; simpl.
  - repeat split; simpl.
    + apply dated_from_app. split; [exact Hev|]. simpl.
      fold (nearest_date (messages (chatData p))). rewrite <- Hd. auto.
    + unfold nearest_date. rewrite date_after_app. simpl. exact Hd.
    + discriminate.
  - repeat split; simpl; [exact Hev|exact Hd|discriminate].
Qed.

Lemma line_step_dated (st : loop) (raw_line : jsstring) (st' : loop) :
  line_step st raw_line st' → loop_dated st → loop_dated st'.
Proof.
  intros Hstep Hinv. destruct st as [p d cm].
  pose proof (flush_dated _ _ _ Hinv) as (Hfev & Hfd & _). simpl in Hfev, Hfd.
  destruct Hinv as (Hev & Hd & Hcm). simpl in *.
  destruct Hstep; simpl in *.
  - repeat split; simpl; [exact Hev|exact Hd|].
    intros cm'. destruct cm as [msg|]; simpl; [|discriminate].
    intros [= <-]. simpl. auto.
  - repeat split; simpl; [exact Hfev|exact Hfd|discriminate].
  - repeat split; simpl; [exact Hfev|exact Hfd|discriminate].
  - repeat split; simpl.
    + apply dated_from_app. split; [exact Hfev|]. simpl. trivial.
    + unfold nearest_date. rewrite date_after_app. reflexivity.
    + discriminate.
  - repeat split; simpl; [exact Hfev|exact Hfd|].
    intros cm' [= <-]. reflexivity.
  - repeat split; simpl; [exact Hev|exact Hd|].
    intros cm'. destruct cm as [msg|]; simpl; [|discriminate].
    intros [= <-]. simpl. auto.
Qed.

Lemma for_lines_dated (lines : list jsstring) :
  ∀ st st', for_lines lines st = Ok st' → loop_dated st → loop_dated st'.
Proof.
  induction lines as [|l ls IH]; intros st st' H Hinv; simpl in H.
  - inversion H; subst. exact Hinv.
  - destruct (parse_line st l) as [st1|e] eqn:Hl; [|discriminate].
    simpl in H. eapply IH; [exact H|].
    eapply line_step_dated; [|exact Hinv]. by apply parse_line_step.
Qed.

(** On a freshly constructed parser the dates are right: for every input
    text, in the events its first call of [parse] returns, each message
    carries as its date the display text of the nearest date entry before
    it, and the empty string when no date entry comes before it. *)
Lemma fresh_parser_dates_messages
    (content : jsstring) (p' : KakaoTalkParser)
    (pre post : list event) (msg : message) :
  parse constructor content = Ok p' →
  messages (chatData p') = pre ++ MessageEvent msg :: post →
  date msg = nearest_date pre.
Proof.
  unfold parse. intros H Hsplit.
  destruct (for_lines (split 10 content) (Loop constructor [] None)) as [st|e] eqn:Hfor;
    [|discriminate].
  simpl in H. inversion H; subst p'.
  assert (Hinit : loop_dated (Loop constructor [] None)).
  { repeat split; simpl; done. }
  pose proof (for_lines_dated _ _ _ Hfor Hinit) as Hinv.
  destruct st as [p d cm].
  apply flush_dated in Hinv as (Hev & _ & _). simpl in *.
  eapply dated_from_lookup; [exact Hev|exact Hsplit].
Qed.

(** ** [extractDate] *)

Lemma datePattern_groups (line : jsstring) (arr : MatchArray) :
  String_match line datePattern = Some arr →
  ∃ year month day dayOfWeek : jsstring,
    at_index arr 1 = Some year ∧ at_index arr 2 = Some month
    ∧ at_index arr 3 = Some day ∧ at_index arr 4 = Some dayOfWeek
    ∧ length year = 4%nat ∧ Forall (λ x, isDigit x = true) year
    ∧ (1 ≤ length month ≤ 2)%nat ∧ Forall (λ x, isDigit x = true) month
    ∧ (1 ≤ length day ≤ 2)%nat ∧ Forall (λ x, isDigit x = true) day
    ∧ dayOfWeek ≠ [] ∧ Forall (λ x, isWhiteSpace x = false) dayOfWeek.
Proof.
  intros H. apply search_sound in H as (pre & s' & st & _ & HM & ->).
  unfold datePattern, seq, Lit, s_year, s_month, s_day in HM.
  cbn [re_tree re_groups foldr Match Lit1] in HM.
  destruct HM as (s1 & H1 & s2 & (t2 & (x2 & xs2 & _ & _ & ->) & ->)
                  & s3 & (n3 & _ & _ & _ & _ & ->)
                  & s4 & H2 & s5 & (t5 & (x5 & xs5 & _ & _ & ->) & ->)
                  & s6 & (n6 & _ & _ & _ & _ & ->)
                  & s7 & H3 & s8 & (t8 & (x8 & xs8 & _ & _ & ->) & ->)
                  & s9 & (n9 & _ & _ & _ & _ & ->)
                  & s10 & H4 & ->).
  apply Match_group_rep in H1 as (n1 & Hlo1 & Hhi1 & Hlen1 & Hall1 & ->).
  apply Match_group_rep in H2 as (n2 & Hlo2 & Hhi2 & Hlen2 & Hall2 & ->).
  apply Match_group_rep in H3 as (n4 & Hlo3 & Hhi3 & Hlen3 & Hall3 & ->).
  apply Match_group_rep in H4 as (n5 & Hlo4 & _ & Hlen4 & Hall4 & ->).
  specialize (Hhi1 _ eq_refl). specialize (Hhi2 _ eq_refl). specialize (Hhi3 _ eq_refl).
  cbn in *.
  do 4 eexists. do 4 (split; [reflexivity|]).
  rewrite !length_take.
  repeat split; try assumption; try lia.
  - intros E. apply (f_equal length) in E. rewrite length_take in E. simpl in E. lia.
  - eapply Forall_impl; [exact Hall4|]. intros x Hx. unfold notWhiteSpace in Hx.
    by destruct (isWhiteSpace x).
Qed.

(** [extractDate] gives the normalized day string when the date pattern
    matches the line, and the line itself when it does not. *)
Lemma extractDate_cases (line : jsstring) :
  (is_Some (String_match line datePattern) ∧ normalized_date (extractDate line))
  ∨ (String_match line datePattern = None ∧ extractDate line = line).
Proof.
  unfold extractDate.
  destruct (String_match line datePattern) as [arr|] eqn:Hm; [left|right; done].
  split; [done|].
  apply datePattern_groups in Hm
    as (y & mo & da & w & -> & -> & -> & -> & Hy1 & Hy2 & Hm1 & Hm2 & Hd1 & Hd2 & Hw1 & Hw2).
  exists y, mo, da, w. simpl. done.
Qed.

Lemma line_step_extracted (st : loop) (raw_line : jsstring) (st' : loop) :
  line_step st raw_line st' →
  Forall extracted (messages (chatData (this st))) →
  Forall extracted (messages (chatData (this st'))).
Proof.
  intros Hstep Hinv.
  assert (Hflush : Forall extracted
            (messages (chatData (flush (this st) (currentMessage st))))).
  { destruct (currentMessage st); simpl; [|exact Hinv].
    apply Forall_app. split; [exact Hinv|]. by constructor. }
  destruct Hstep; simpl; try assumption.
  apply Forall_app. split; [exact Hflush|]. by constructor.
Qed.

Lemma for_lines_extracted (lines : list jsstring) :
  ∀ st st', for_lines lines st = Ok st' →
    Forall extracted (messages (chatData (this st))) →
    Forall extracted (messages (chatData (this st'))).
Proof.
  induction lines as [|l ls IH]; intros st st' H Hinv; simpl in H.
  - inversion H; subst. exact Hinv.
  - destruct (parse_line st l) as [st1|e] eqn:Hl; [|discriminate].
    simpl in H. eapply IH; [exact H|].
    eapply line_step_extracted; [|exact Hinv]. by apply parse_line_step.
Qed.

(** C9, as the code has it. For every date entry a freshly constructed
    parser produces, the display text is the normalized string
    "<year>년 <month>월 <day>일 <weekday>" when the date pattern matches the
    separator line; when it does not, the display text is the separator
    line itself, trimmed. *)
Theorem date_marker_text
    (content : jsstring) (p' : KakaoTalkParser) (d r : jsstring) :
  parse constructor content = Ok p' →
  DateEvent d r ∈ messages (chatData p') →
  (is_Some (String_match r datePattern) ∧ normalized_date d)
  ∨ (String_match r datePattern = None ∧ d = r).
Proof.
  unfold parse. intros H Hin.
  destruct (for_lines (split 10 content) (Loop constructor [] None)) as [st|e] eqn:Hfor;
    [|discriminate].
  simpl in H. inversion H; subst p'.
  assert (Hall : Forall extracted (messages (chatData (flush (this st) (currentMessage st))))).
  { pose proof (for_lines_extracted _ _ _ Hfor) as Hinv. simpl in Hinv.
    specialize (Hinv (Forall_nil_2 _)).
    destruct (currentMessage st); simpl; [|exact Hinv].
    apply Forall_app. split; [exact Hinv|]. by constructor. }
  rewrite Forall_forall in Hall. apply Hall in Hin. simpl in Hin. subst d.
  apply extractDate_cases.
Qed.

(** ** Headers *)

Lemma header_value_cons (f : jsstring -> bool) (strip initial x : jsstring)
    (xs : list jsstring) :
  header_value f strip initial (x :: xs)
  = header_value f strip (if f x then replace x strip [] else initial) xs.
Proof.
  unfold header_value. simpl. destruct (f x); [|reflexivity].
  rewrite last_cons. by destruct (last (List.filter f xs)).
Qed.

Lemma flush_title (p : KakaoTalkParser) (cm : option message) :
  title (chatData (flush p cm)) = title (chatData p)
  ∧ saveDate (chatData (flush p cm)) = saveDate (chatData p).
Proof. by destruct cm. Qed.

Lemma line_step_headers (st : loop) (raw_line : jsstring) (st' : loop) :
  line_step st raw_line st' →
  title (chatData (this st'))
  = (if is_title_line (trim raw_line)
     then replace (trim raw_line) s_title_strip []
     else title (chatData (this st)))
  ∧ saveDate (chatData (this st'))
    = (if negb (is_title_line (trim raw_line)) && is_save_line (trim raw_line)
       then replace (trim raw_line) s_save_strip []
       else saveDate (chatData (this st))).
Proof.
  pose proof (flush_title (this st) (currentMessage st)) as [Ht Hs].
  intros [Hb|Hne Ht1|Hne Ht1 Hs1|Hne Ht1 Hs1 Hd1|arr a b c Hne Ht1 Hs1 Hd1 Hm Ha Hb Hc
          |Hne Ht1 Hs1 Hd1 Hm]; simpl.
  - rewrite Hb. done.
  - rewrite Ht1. simpl. done.
  - rewrite Ht1, Hs1. simpl. done.
  - rewrite Ht1, Hs1. simpl. done.
  - rewrite Ht1, Hs1. simpl. done.
  - rewrite Ht1, Hs1. simpl. done.
Qed.

Lemma for_lines_headers (lines : list jsstring) :
  ∀ st st', for_lines lines st = Ok st' →
    title (chatData (this st'))
    = header_value is_title_line s_title_strip (title (chatData (this st)))
        (map trim lines)
    ∧ saveDate (chatData (this st'))
      = header_value (fun l => negb (is_title_line l) && is_save_line l) s_save_strip
          (saveDate (chatData (this st))) (map trim lines).
Proof.
  induction lines as [|l ls IH]; intros st st' H; simpl in H.
  - inversion H; subst. done.
  - destruct (parse_line st l) as [st1|e] eqn:Hl; [|discriminate].
    simpl in H. apply IH in H as [Ht Hs].
    apply parse_line_step, line_step_headers in Hl as [Ht1 Hs1].
    simpl map. rewrite !header_value_cons, <- Ht1, <- Hs1. done.
Qed.

(** C3, as the code has it. Every line matching a header pattern overwrites
    the field: the title of the returned chat data is taken from the last
    line containing the title marker, the save date from the last line that
    starts with the save-date marker and is not a title line; a field with
    no such line keeps the value the parser had (the empty string on a
    fresh parser). *)
Theorem headers_last_match_wins
    (p : KakaoTalkParser) (content : jsstring) (p' : KakaoTalkParser) :
  parse p content = Ok p' →
  title (chatData p')
  = header_value is_title_line s_title_strip (title (chatData p))
      (map trim (split 0x0A content))
  ∧ saveDate (chatData p')
    = header_value (fun l => negb (is_title_line l) && is_save_line l) s_save_strip
        (saveDate (chatData p)) (map trim (split 0x0A content)).
Proof.
  unfold parse. intros H.
  destruct (for_lines (split 10 content) (Loop p [] None)) as [st|e] eqn:Hfor;
    [|discriminate].
  simpl in H. inversion H; subst p'.
  apply for_lines_headers in Hfor as [Ht Hs]. simpl in Ht, Hs.
  pose proof (flush_title (this st) (currentMessage st)) as [-> ->]. done.
Qed.

(** ** Date separators and continuation lines *)



(** C2, as the code has it. While a message is open, a line whose trimmed
    form is not empty and matches none of the header, date-separator and
    message patterns appends a newline and the trimmed line to the content
    of the open message, and sets its kind to the classifier of the
    resulting content; sender, time and date stay. *)
Theorem continuation_round (st : loop) (raw_line : jsstring) (cm : message) :
  currentMessage st = Some cm →
  trim raw_line ≠ [] →
  unmatched (trim raw_line) →
  ∃ cm', parse_line st raw_line = Ok (Loop (this st) (currentDate st) (Some cm'))
    ∧ content cm' = content cm ++ LF ++ trim raw_line
    ∧ messageType cm' = detectMessageType (content cm')
    ∧ sender cm' = sender cm ∧ time cm' = time cm ∧ date cm' = date cm.
Proof.
  intros Hcm Hne (Ht & Hs & Hd & Hm).
  unfold is_title_line, is_save_line, is_date_line in *.
  exists (append_line (trim raw_line) cm). unfold parse_line.
  destruct (falsy (trim raw_line)) eqn:Hf; [by apply falsy_nil in Hf|].
  rewrite Ht, Hs, Hd, Hm, Hcm. done.
Qed.

(** A blank line inside an open message adds the newline only and leaves
    the kind as it was. *)
Lemma blank_round (st : loop) (raw_line : jsstring) (cm : message) :
  currentMessage st = Some cm →
  trim raw_line = [] →
  parse_line st raw_line = Ok (Loop (this st) (currentDate st) (Some (append_blank cm))).
Proof. intros Hcm Hb. unfold parse_line. rewrite Hb, Hcm. done. Qed.

(** ** Totality *)




(** ** The classifier *)

Lemma Match_LitI_elim (ext : jsstring) :
  ∀ st st', Match (LitI ext) st st' →
    ∃ e, m_rest st = e ++ m_rest st' ∧ Canonicalize <$> e = Canonicalize <$> ext.
Proof.
  induction ext as [|c ext IH]; intros st st' H; cbn [LitI foldr Match] in H.
  - subst st'. by exists [].
  - destruct H as (st1 & (x & xs & Hrest & Hx & ->) & H).
    apply IH in H as (e & He & Hmap). simpl in He.
    exists (x :: e). rewrite Hrest, He. split; [done|].
    apply N.eqb_eq in Hx. by rewrite !fmap_cons, Hx, Hmap.
Qed.

Lemma Match_LitI_intro (ext e : jsstring) :
  Canonicalize <$> e = Canonicalize <$> ext →
  ∀ (i : nat) (t : jsstring) (caps : list (option jsstring)),
    Match (LitI ext) (MState i (e ++ t) caps) (MState (i + length e) t caps).
Proof.
  revert e. induction ext as [|c ext IH]; intros e Hmap i t caps.
  - destruct e; [|discriminate]. simpl. by rewrite Nat.add_0_r.
  - destruct e as [|x e]; [discriminate|]. rewrite !fmap_cons in Hmap.
    injection Hmap as Hx Hmap. cbn [LitI foldr Match].
    exists (MState (S i) (e ++ t) caps). split.
    + exists x, (e ++ t). simpl. rewrite Hx, N.eqb_refl. done.
    + replace (i + length (x :: e))%nat with (S i + length e)%nat by (simpl; lia).
      by apply IH.
Qed.

Lemma Match_alts (rs : list regex) :
  ∀ r st st', Match (alts r rs) st st' ↔ ∃ r', r' ∈ r :: rs ∧ Match r' st st'.
Proof.
  induction rs as [|r0 rs IH]; intros r st st'; simpl.
  - split; [intros H; exists r; split; [by left|done]|].
    intros (r' & Hin & H). apply list_elem_of_singleton in Hin. by subst.
  - rewrite IH. split.
    + intros [H|(r' & Hin & H)].
      * exists r. split; [by left|done].
      * exists r'. split; [by right|done].
    + intros (r' & Hin & H). apply elem_of_cons in Hin as [->|Hin]; [by left|].
      right. eauto.
Qed.

(** The file pattern matches exactly the contents that end with a dot and
    one of the extensions, letter case apart. *)
Lemma has_extension_spec (content : jsstring) :
  has_extension content = ends_with_extension content.
Proof.
  unfold has_extension, ends_with_extension. apply bool_decide_ext.
  rewrite Exists_exists. split.
  - intros [arr H]. apply search_sound in H as (pre & s' & st & -> & HM & _).
    unfold filePattern, seq in HM. cbn [re_tree re_groups foldr Match LitI1] in HM.
    destruct HM as (s1 & (x & xs & Hs' & Hx & ->) & s2 & (s3 & Halt & ->)
                    & s4 & [Hend ->] & ->).
    simpl in Hs', Hend. subst s'.
    apply Match_alts in Halt as (r' & Hin & Hr').
    change (r' ∈ LitI <$> extensions) in Hin.
    apply list_elem_of_fmap in Hin as (ext & -> & Hext).
    apply Match_LitI_elim in Hr' as (e & He & Hmap). simpl in He.
    rewrite Hend, app_nil_r in He. subst xs.
    exists ext. split; [exact Hext|].
    exists (Canonicalize <$> pre). rewrite fmap_app, fmap_cons, Hmap.
    apply N.eqb_eq in Hx. rewrite Hx. reflexivity.
  - intros (ext & Hext & k & Hk).
    apply fmap_app_inv in Hk as (pre & rest & -> & Hrest & ->).
    symmetry in Hrest. apply fmap_cons_inv in Hrest as (x & e & Hx & Hmap & ->).
    apply (search_complete filePattern pre O (x :: e)
             (MState (S (length pre) + length e) []
                (<[1%nat := Some e]> (replicate 2 None)))).
    unfold filePattern, seq. cbn [re_tree re_groups foldr Match LitI1].
    eexists. split.
    { exists x, e. simpl. rewrite <- Hx. done. }
    eexists. split.
    { eexists. split; [|reflexivity].
      apply Match_alts. exists (LitI ext). split.
      - change (LitI ext ∈ LitI <$> extensions). by apply list_elem_of_fmap_2.
      - rewrite <- (app_nil_r e) at 1. apply Match_LitI_intro. by symmetry. }
    eexists. split; [split; reflexivity|].
    cbn. f_equal. f_equal. f_equal.
    replace (length pre + length e - length pre)%nat with (length e) by lia.
    by rewrite take_ge by lia.
Qed.

Lemma detectMessageType_first_match (content : jsstring) :
  detectMessageType content = first_match documented_rules Ttext content.
Proof.
  unfold detectMessageType, first_match, documented_rules, has_url.
  cbn [List.find fst snd].
  fold (has_extension content). rewrite <- has_extension_spec.
  repeat match goal with
         | |- context [if ?b then _ else _] => destruct b; try reflexivity
         end.
Qed.

Lemma url_not_placeholder (content : jsstring) :
  has_url content = true →
  falsy content = false
  ∧ streq content s_photo = false ∧ streq content s_video = false
  ∧ streq content s_photos = false ∧ streq content s_emoticon = false.
Proof.
  intros H. split.
  { destruct content; [vm_compute in H; discriminate H|reflexivity]. }
  repeat split; apply bool_decide_eq_false; intros ->; vm_compute in H;
    discriminate H.
Qed.

(** C5, as the code has it. The classifier is the documented table read
    from the top (empty, media, emoticon, link, file, voice, system, text
    otherwise), the first rule that applies giving the kind. A content that
    contains 'http://' or 'https://' is therefore a link whatever extension
    it ends with, unless it starts with the emoticon prefix '이모티콘:', the
    emoticon rule coming before the link rule; it is never a file. *)
Theorem classifier_first_match_wins (content : jsstring) :
  detectMessageType content = first_match documented_rules Ttext content
  ∧ (has_url content = true →
     detectMessageType content
     = (if startsWith content s_emoticon_prefix then Temoticon else Tlink)
     ∧ detectMessageType content ≠ Tfile).
Proof.
  split; [apply detectMessageType_first_match|].
  intros H. pose proof (url_not_placeholder _ H) as (H0 & H1 & H2 & H3 & H4).
  unfold detectMessageType. fold (has_url content).
  rewrite H0, H1, H2, H3, H4, H. simpl.
  destruct (startsWith content s_emoticon_prefix); done.
Qed.

(** ** Statistics *)

Lemma Set_spread_acc (xs : list jsstring) :
  ∀ acc, NoDup acc →
    NoDup (foldl Set_add acc xs)
    ∧ ∀ x, x ∈ foldl Set_add acc xs ↔ x ∈ acc ∨ x ∈ xs.
Proof.
  induction xs as [|y ys IH]; intros acc Hnd; simpl.
  - split; [exact Hnd|]. intros x. rewrite elem_of_nil. tauto.
  - unfold Set_add at 2 4. case_bool_decide as Hy.
    + destruct (IH acc Hnd) as [Hnd' Hin]. split; [exact Hnd'|].
      intros x. rewrite Hin, elem_of_cons. split; [tauto|].
      intros [?|[->|?]]; tauto.
    + assert (Hnd1 : NoDup (acc ++ [y])).
      { apply NoDup_app. repeat split; [exact Hnd| |apply NoDup_singleton].
        intros x Hx Hx'. apply list_elem_of_singleton in Hx'. by subst. }
      destruct (IH _ Hnd1) as [Hnd' Hin]. split; [exact Hnd'|].
      intros x. rewrite Hin, elem_of_app, list_elem_of_singleton, elem_of_cons. tauto.
Qed.

Lemma Set_spread_NoDup (xs : list jsstring) : NoDup (Set_spread xs).
Proof. apply Set_spread_acc. constructor. Qed.

Lemma Set_spread_elem_of (xs : list jsstring) (x : jsstring) :
  x ∈ Set_spread xs ↔ x ∈ xs.
Proof.
  unfold Set_spread. destruct (Set_spread_acc xs [] (NoDup_nil_2)) as [_ H].
  rewrite H, elem_of_nil. tauto.
Qed.

(** The length of the spread set is the number of distinct elements. *)
Lemma Set_spread_length (xs : list jsstring) :
  length (Set_spread xs) = size (list_to_set xs : gset jsstring).
Proof.
  rewrite <- (size_list_to_set (C := gset jsstring) (Set_spread xs))
    by apply Set_spread_NoDup.
  f_equal. apply set_eq. intros x.
  rewrite !elem_of_list_to_set. apply Set_spread_elem_of.
Qed.

(** What the assignments of [getSenderStats] leave in [stats]: an own
    property for every sender but ['__proto__'], and the record of the
    sender ['__proto__'], if there is one, as prototype. *)
Lemma foldl_PutValue (f : jsstring -> SenderStat) (keys : list jsstring) :
  ∀ (o : JSObject),
    (∀ k, own (foldl (fun stats s => PutValue stats s (f s)) o keys) !! k
          = if bool_decide (k ∈ keys ∧ k ≠ s_proto) then Some (f k) else own o !! k)
    ∧ prototype (foldl (fun stats s => PutValue stats s (f s)) o keys)
      = if bool_decide (s_proto ∈ keys) then Some (f s_proto) else prototype o.
Proof.
  induction keys as [|s keys IH]; intros o; cbn [foldl].
  - split.
    + intros k. case_bool_decide as H; [|done]. destruct H as [H _].
      by apply elem_of_nil in H.
    + case_bool_decide as H; [by apply elem_of_nil in H|done].
  - destruct (IH (PutValue o s (f s))) as [Hown Hproto]. split.
    + intros k. rewrite Hown.
      destruct (decide (k ∈ keys ∧ k ≠ s_proto)) as [[Hk Hne]|Hn].
      { rewrite !bool_decide_eq_true_2; [done| |done].
        split; [by right|done]. }
      rewrite (bool_decide_eq_false_2 _ Hn).
      unfold PutValue, streq.
      destruct (decide (k = s)) as [->|Hks].
      * destruct (decide (s = s_proto)) as [Hs|Hs].
        -- rewrite (bool_decide_eq_true_2 _ Hs). cbn [own].
           rewrite bool_decide_eq_false_2; [done|]. intros [_ H]. done.
        -- rewrite (bool_decide_eq_false_2 _ Hs). cbn [own].
           rewrite bool_decide_eq_true_2; [apply lookup_insert_eq|].
           split; [by left|done].
      * rewrite (bool_decide_eq_false_2 (k ∈ s :: keys ∧ k ≠ s_proto)).
        2:{ intros [H Hne]. apply elem_of_cons in H as [H|H]; [done|].
            apply Hn. done. }
        destruct (decide (s = s_proto)) as [Hs|Hs].
        -- by rewrite (bool_decide_eq_true_2 _ Hs).
        -- rewrite (bool_decide_eq_false_2 _ Hs). cbn [own].
           apply lookup_insert_ne. congruence.
    + rewrite Hproto. unfold PutValue, streq.
      destruct (decide (s_proto ∈ keys)) as [Hk|Hn].
      { rewrite !bool_decide_eq_true_2; [done| |done]. by right. }
      rewrite (bool_decide_eq_false_2 _ Hn).
      destruct (decide (s = s_proto)) as [Hs|Hs].
      * rewrite (bool_decide_eq_true_2 _ Hs). cbn [prototype].
        rewrite bool_decide_eq_true_2; [by rewrite Hs|]. rewrite Hs. by left.
      * rewrite (bool_decide_eq_false_2 _ Hs). cbn [prototype].
        rewrite bool_decide_eq_false_2; [done|].
        intros H. apply elem_of_cons in H as [H|H]; [congruence|done].
Qed.

Lemma getSenderStats_own (msgs : list message) (senders : list jsstring)
    (k : jsstring) :
  own (getSenderStats msgs senders) !! k
  = if bool_decide (k ∈ senders ∧ k ≠ s_proto)
    then Some (sender_record msgs k) else None.
Proof.
  unfold getSenderStats.
  destruct (foldl_PutValue (sender_record msgs) senders Object_empty) as [H _].
  rewrite H. simpl. by rewrite lookup_empty.
Qed.

Lemma getSenderStats_prototype (msgs : list message) (senders : list jsstring) :
  prototype (getSenderStats msgs senders)
  = if bool_decide (s_proto ∈ senders)
    then Some (sender_record msgs s_proto) else None.
Proof.
  unfold getSenderStats.
  destruct (foldl_PutValue (sender_record msgs) senders Object_empty) as [_ H].
  exact H.
Qed.

(** Reading [stats] at a sender gives the record built for that sender,
    also at the sender ['__proto__']. *)
Lemma getSenderStats_get (msgs : list message) (senders : list jsstring)
    (s : jsstring) :
  s ∈ senders →
  GetValue (getSenderStats msgs senders) s = VRecord (sender_record msgs s).
Proof.
  intros Hin. unfold GetValue. rewrite getSenderStats_own, getSenderStats_prototype.
  case_bool_decide as H; [done|].
  assert (s = s_proto) as ->.
  { destruct (decide (s = s_proto)) as [E|E]; [exact E|]. exfalso. by apply H. }
  unfold streq. rewrite bool_decide_eq_true_2 by done.
  by rewrite bool_decide_eq_true_2.
Qed.

(** A record read from [stats] is the record of a sender. *)
Lemma getSenderStats_record (msgs : list message) (senders : list jsstring)
    (k : jsstring) (st : SenderStat) :
  GetValue (getSenderStats msgs senders) k = VRecord st →
  k ∈ senders ∧ st = sender_record msgs k.
Proof.
  unfold GetValue. rewrite getSenderStats_own, getSenderStats_prototype.
  case_bool_decide as H.
  { intros [= <-]. by destruct H. }
  unfold streq. case_bool_decide as Hk.
  - subst k. case_bool_decide as Hp; [|discriminate]. intros [= <-]. done.
  - case_bool_decide as Hp.
    + repeat case_bool_decide; try discriminate. unfold inherited.
      case_bool_decide; discriminate.
    + unfold inherited. case_bool_decide; discriminate.
Qed.

(** The own keys of [stats]: the senders other than ['__proto__']. *)
Lemma getSenderStats_keys (msgs : list message) (senders : list jsstring)
    (k : jsstring) :
  k ∈ Object_keys (getSenderStats msgs senders) ↔ k ∈ senders ∧ k ≠ s_proto.
Proof.
  unfold Object_keys. rewrite elem_of_dom, getSenderStats_own.
  case_bool_decide as H; split; try done.
Qed.

Lemma getSenderStats_keys_of_getStats (p : KakaoTalkParser) (k : jsstring) :
  k ∈ Object_keys (senderStats (getStats p))
  ↔ k ∈ map sender (filter_message (messages (chatData p))) ∧ k ≠ s_proto.
Proof.
  unfold getStats. cbn [senderStats]. rewrite getSenderStats_keys.
  by rewrite Set_spread_elem_of.
Qed.

(** C8, as the code has it. Over the message entries only: [totalMessages]
    is their number, [totalDays] the number of date entries, [participants]
    the number of distinct senders, and the entry of each sender, read as
    [senderStats[sender]], is [{count, percentage}] with [percentage] the
    value of [Math.round((count / totalMessages) * 100)] in double-precision
    arithmetic, the quotient being rounded before it is multiplied. With
    three messages from A and one from B: [totalMessages] is 4, A has
    [{3, 75}] and B has [{1, 25}]. *)
Theorem getStats_projection (p : KakaoTalkParser) (s : jsstring) :
  let msgs := filter_message (messages (chatData p)) in
  totalMessages (getStats p) = length msgs
  ∧ totalDays (getStats p) = length (filter_date (messages (chatData p)))
  ∧ participants (getStats p) = size (list_to_set (map sender msgs) : gset jsstring)
  ∧ (s ∈ map sender msgs →
     GetValue (senderStats (getStats p)) s
     = VRecord (mkSenderStat (length (filter_sender msgs s))
                  (Math_round
                     (Number_mul
                        (Number_div (Number_of_nat (length (filter_sender msgs s)))
                                    (Number_of_nat (length msgs)))
                        (Number_of_nat 100)))))
  ∧ totalMessages (getStats three_and_one) = 4%nat
  ∧ GetValue (senderStats (getStats three_and_one)) (js "A")
    = VRecord (mkSenderStat 3 (Number_of_Z 75))
  ∧ GetValue (senderStats (getStats three_and_one)) (js "B")
    = VRecord (mkSenderStat 1 (Number_of_Z 25)).
Proof.
  intros msgs. split; [reflexivity|]. split; [reflexivity|]. split.
  { unfold getStats. simpl. apply Set_spread_length. }
  split.
  { intros Hin. unfold getStats. cbn [senderStats]. fold msgs.
    apply getSenderStats_get. by apply Set_spread_elem_of. }
  split; [reflexivity|].
  split; vm_compute; reflexivity.
Qed.

Lemma filter_sender_nonempty (msgs : list message) (s : jsstring) :
  s ∈ map sender msgs → (0 < length (filter_sender msgs s))%nat.
Proof.
  induction msgs as [|msg msgs IH]; simpl.
  - intros H. by apply elem_of_nil in H.
  - intros H. unfold streq. case_bool_decide as Hs; simpl; [lia|].
    apply elem_of_cons in H as [->|H]; [done|]. by apply IH.
Qed.

(** C10. On chat data without a message entry [getStats] returns
    [totalMessages] 0, [participants] 0 and an empty [senderStats]; and in
    general a record can be read from [senderStats] only for a sender with
    at least one message, so a percentage is only ever computed with a
    positive count over a positive total. *)
Theorem getStats_without_messages (p : KakaoTalkParser) :
  (filter_message (messages (chatData p)) = [] →
   totalMessages (getStats p) = 0%nat
   ∧ participants (getStats p) = 0%nat
   ∧ senderStats (getStats p) = Object_empty)
  ∧ (∀ s st, GetValue (senderStats (getStats p)) s = VRecord st →
       (0 < count st)%nat ∧ (0 < totalMessages (getStats p))%nat).
Proof.
  split.
  - intros H. unfold getStats. rewrite H. done.
  - intros s st H. unfold getStats in *. cbn [senderStats totalMessages] in *.
    apply getSenderStats_record in H as [Hin ->]. cbn [sender_record count].
    apply (proj1 (Set_spread_elem_of _ _)) in Hin.
    pose proof (filter_sender_nonempty _ _ Hin) as Hpos.
    split; [exact Hpos|].
    destruct (filter_message (messages (chatData p))); simpl in *; lia.
Qed.

(** ** A parser used twice *)

Section Reuse.

(** The events a parser holds before the call. *)
Variable pfx : list event.

Lemma flush_prefix (p q : KakaoTalkParser) (cm : option message) :
  messages (chatData q) = pfx ++ messages (chatData p) →
  messages (chatData (flush q cm)) = pfx ++ messages (chatData (flush p cm)).
Proof.
  intros H. destruct cm; simpl; [|exact H]. rewrite H. by rewrite app_assoc.
Qed.

(** A round of the loop reads the events pushed earlier nowhere: it only
    adds to them. *)
Lemma parse_line_prefix (p q : KakaoTalkParser)
    (d : jsstring) (cm : option message) (raw_line : jsstring) (sp : loop) :
  messages (chatData q) = pfx ++ messages (chatData p) →
  parse_line (Loop p d cm) raw_line = Ok sp →
  ∃ q', parse_line (Loop q d cm) raw_line
        = Ok (Loop q' (currentDate sp) (currentMessage sp))
      ∧ messages (chatData q') = pfx ++ messages (chatData (this sp)).
Proof.
  intros HR Hp. pose proof (flush_prefix p q cm HR) as HF.
  unfold parse_line in *. cbn [this currentDate currentMessage] in *.
  destruct (falsy (trim raw_line)).
  { destruct cm; inversion Hp; subst sp; simpl; eauto. }
  destruct (includes (trim raw_line) s_title_mark).
  { inversion Hp; subst sp; simpl; eauto. }
  destruct (startsWith (trim raw_line) s_save_mark).
  { inversion Hp; subst sp; simpl; eauto. }
  destruct (startsWith (trim raw_line) s_dashes && includes (trim raw_line) s_year
            && includes (trim raw_line) s_month).
  { inversion Hp; subst sp; simpl. eexists. split; [reflexivity|].
    simpl. rewrite HF. by rewrite app_assoc. }
  destruct (String_match (trim raw_line) messagePattern) as [arr|] eqn:Hm.
  - destruct (messagePattern_groups _ _ Hm) as (a & b & c & Ha & Hb & Hc).
    rewrite Ha, Hb, Hc in *. simpl in *. inversion Hp; subst sp; simpl; eauto.
  - destruct cm; inversion Hp; subst sp; simpl; eauto.
Qed.

Lemma for_lines_prefix (lines : list jsstring) :
  ∀ (p q : KakaoTalkParser) (d : jsstring) (cm : option message) (sp : loop),
    messages (chatData q) = pfx ++ messages (chatData p) →
    for_lines lines (Loop p d cm) = Ok sp →
    ∃ q', for_lines lines (Loop q d cm)
          = Ok (Loop q' (currentDate sp) (currentMessage sp))
        ∧ messages (chatData q') = pfx ++ messages (chatData (this sp)).
Proof.
  induction lines as [|l ls IH]; intros p q d cm sp HR H; simpl in H.
  - inversion H; subst sp. simpl. eauto.
  - destruct (parse_line (Loop p d cm) l) as [[p1 d1 cm1]|e] eqn:Hl; [|discriminate].
    simpl in H.
    destruct (parse_line_prefix p q d cm l _ HR Hl) as (q1 & Hq1 & HR1).
    simpl in Hq1, HR1. simpl. rewrite Hq1. simpl.
    eapply IH; [exact HR1|exact H].
Qed.

End Reuse.

(** On a parser that already holds events, [parse] returns them followed by
    the events of the new text. *)
Lemma parse_keeps_earlier_events (p : KakaoTalkParser) (content : jsstring)
    (p0 p' : KakaoTalkParser) :
  parse constructor content = Ok p0 →
  parse p content = Ok p' →
  messages (chatData p') = messages (chatData p) ++ messages (chatData p0).
Proof.
  unfold parse. intros H0 H.
  destruct (for_lines (split 10 content) (Loop constructor [] None))
    as [s0|e] eqn:Hfor; [|discriminate].
  simpl in H0. inversion H0; subst p0.
  destruct (for_lines_prefix (messages (chatData p)) (split 10 content)
              constructor p [] None s0)
    as (q' & Hq & HR); [simpl; by rewrite app_nil_r|exact Hfor|].
  rewrite Hq in H. simpl in H. inversion H; subst p'.
  by apply flush_prefix.
Qed.

(** The second of two calls on the same parser with the same text returns
    every event twice. *)
Lemma parse_twice_doubles (content : jsstring) (p1 p2 : KakaoTalkParser) :
  parse constructor content = Ok p1 →
  parse p1 content = Ok p2 →
  messages (chatData p2) = messages (chatData p1) ++ messages (chatData p1).
Proof. intros H1 H2. by apply (parse_keeps_earlier_events p1 content p1 p2). Qed.

(** C1, on the text of one message: the second call on the same parser
    returns the message twice, where a fresh parser returns it once. *)
Theorem parse_twice_on_one_parser :
  ∃ p1 p2 ev,
    parse constructor sample_header = Ok p1
    ∧ parse p1 sample_header = Ok p2
    ∧ messages (chatData p1) = [ev]
    ∧ messages (chatData p2) = [ev; ev].
Proof.
  destruct (parse_ok constructor sample_header) as [p1 H1].
  destruct (parse_ok p1 sample_header) as [p2 H2].
  pose proof (parse_twice_doubles _ _ _ H1 H2) as Hdouble.
  assert (Hev : ∃ ev, messages (chatData p1) = [ev]).
  { vm_compute in H1. inversion H1; subst p1. simpl. eauto. }
  destruct Hev as [ev Hev]. exists p1, p2, ev.
  rewrite Hev in Hdouble. done.
Qed.

(** Whatever a parser already holds, a call of [parse] on the text of one
    message starts again from the empty current date: the message is added
    after the earlier events with the date [''], also when the last of them
    is a date entry. *)
Lemma parse_forgets_date (p p' : KakaoTalkParser) :
  parse p sample_header = Ok p' →
  messages (chatData p')
  = messages (chatData p) ++ [MessageEvent sample_unfinished].
Proof.
  intros H.
  assert (H0 : parse constructor sample_header
               = Ok (mkParser (mkChatData [] [] [MessageEvent sample_unfinished])))
    by (vm_compute; reflexivity).
  exact (parse_keeps_earlier_events p sample_header _ p' H0 H).
Qed.

(** C6, on a parser used twice: after a first call on a date separator
    line, a second call on the text of one message returns the date entry
    followed by the message, and the message carries the empty string as
    its date, not the display text of the date entry before it. *)
Theorem reused_parser_misdates_message :
  ∃ p1 p2 msg,
    parse constructor sample_separator = Ok p1
    ∧ parse p1 sample_header = Ok p2
    ∧ messages (chatData p2)
      = [DateEvent sample_day sample_separator] ++ MessageEvent msg :: []
    ∧ nearest_date [DateEvent sample_day sample_separator] = sample_day
    ∧ date msg = []
    ∧ date msg ≠ nearest_date [DateEvent sample_day sample_separator].
Proof.
  destruct (parse_ok constructor sample_separator) as [p1 H1].
  destruct (parse_ok p1 sample_header) as [p2 H2].
  exists p1, p2, sample_unfinished.
  pose proof (parse_forgets_date p1 p2 H2) as Hev.
  assert (Hp1 : messages (chatData p1) = [DateEvent sample_day sample_separator]).
  { vm_compute in H1. inversion H1; subst p1. vm_compute. reflexivity. }
  rewrite Hp1 in Hev.
  split; [exact H1|]. split; [exact H2|]. split; [exact Hev|].
  split; [vm_compute; reflexivity|]. split; [reflexivity|].
  vm_compute. discriminate.
Qed.

(** * The examples of the specification *)

Example multi_line_merge :
  parse constructor (js "[A] [10:00] hello" ++ LF ++ js "world")
  = Ok (mkParser (mkChatData [] []
          [MessageEvent
             (Message (js "A") (js "10:00") (js "hello" ++ LF ++ js "world") [] Ttext
                (js "[A] [10:00] hello" ++ LF ++ js "world"))])).
Proof. vm_compute. reflexivity. Qed.

Example blank_line_preserved :
  parse constructor (js "[A] [10:00] line1" ++ LF ++ LF ++ js "line2")
  = Ok (mkParser (mkChatData [] []
          [MessageEvent
             (Message (js "A") (js "10:00") (js "line1" ++ LF ++ LF ++ js "line2") []
                Ttext (js "[A] [10:00] line1" ++ LF ++ LF ++ js "line2"))])).
Proof. vm_compute. reflexivity. Qed.

Example date_separator_recognised :
  parse constructor sample_separator
  = Ok (mkParser (mkChatData [] [] [DateEvent sample_day sample_separator])).
Proof. vm_compute. reflexivity. Qed.

Example kinds :
  detectMessageType (js "사진") = Tmedia
  ∧ detectMessageType (js "https://example.com") = Tlink
  ∧ detectMessageType (js "") = Tempty
  ∧ detectMessageType (js "그냥 텍스트") = Ttext
  ∧ detectMessageType (js "철수 님이 들어왔습니다.") = Tsystem
  ∧ detectMessageType (js "Report.PDF") = Tfile.
Proof. repeat split; vm_compute; reflexivity. Qed.

Example header_extraction :
  parse constructor (js "민수 님과 카카오톡 대화" ++ LF ++ js "저장한 날짜 : 2025-05-21 10:00:00")
  = Ok (mkParser (mkChatData (js "민수") (js "2025-05-21 10:00:00") [])).
Proof. vm_compute. reflexivity. Qed.

(** * Where the code departs from the specification *)

(** C2 at the line "  world" after "[A] [10:00] hello": the line matches no
    pattern and a message is open, yet what is appended is "world", not the
    line as it stands. *)
Lemma continuation_line_is_trimmed :
  currentMessage sample_open = Some sample_unfinished
  ∧ unmatched (trim (js "  world"))
  ∧ ∃ cm', parse_line sample_open (js "  world") = Ok (Loop constructor [] (Some cm'))
      ∧ content cm' = js "hello" ++ LF ++ js "world"
      ∧ content cm' ≠ js "hello" ++ LF ++ js "  world".
Proof.
  split; [reflexivity|]. split; [by vm_compute|].
  eexists. split; [vm_compute; reflexivity|]. split; [by vm_compute|].
  vm_compute. discriminate.
Qed.

(** C3 at two title lines: the title is that of the second line. *)
Lemma second_title_overwrites :
  ∃ p', parse constructor two_titles = Ok p'
    ∧ title (chatData p') = js "B"
    ∧ title (chatData p') ≠ js "A".
Proof.
  eexists. split; [vm_compute; reflexivity|]. split; [by vm_compute|].
  vm_compute. discriminate.
Qed.


(** C5 at "이모티콘:http://a.pdf": the content contains a URL and ends with a
    document extension, and its kind is emoticon, not link. *)
Lemma emoticon_prefix_beats_link :
  has_url emoticon_with_url = true
  ∧ has_extension emoticon_with_url = true
  ∧ detectMessageType emoticon_with_url = Temoticon
  ∧ detectMessageType emoticon_with_url ≠ Tlink.
Proof. repeat split; try (vm_compute; reflexivity). vm_compute. discriminate. Qed.

(** A sender named [__proto__]: the assignment [stats[sender] = ...] adds no
    own property, so [senderStats] has no key although there is one
    participant; the record has become the prototype of [senderStats], where
    [senderStats[sender]] still reads it, and its fields show through as
    [senderStats.count] and [senderStats.percentage]. *)
Example sender_named_proto :
  parse constructor proto_header = Ok proto_parsed
  ∧ participants (getStats proto_parsed) = 1%nat
  ∧ Object_keys (senderStats (getStats proto_parsed)) = ∅
  ∧ GetValue (senderStats (getStats proto_parsed)) s_proto
    = VRecord (mkSenderStat 1 (Number_of_Z 100))
  ∧ GetValue (senderStats (getStats proto_parsed)) s_count
    = VNumber (Number_of_nat 1)
  ∧ GetValue (senderStats (getStats proto_parsed)) s_percentage
    = VNumber (Number_of_Z 100).
Proof.
  split; [vm_compute; reflexivity|]. split; [reflexivity|].
  split.
  { apply set_eq. intros k. rewrite getSenderStats_keys_of_getStats.
    split; [|set_solver]. intros [Hin Hne]. exfalso. apply Hne.
    vm_compute in Hin. apply list_elem_of_singleton in Hin. exact Hin. }
  repeat split; vm_compute; reflexivity.
Qed.

(** C8 at 29 messages out of 200: the code stores 14, while 100 * 29 / 200
    is 14.5 and rounds to 15. *)
Lemma percentage_of_29_in_200 :
  totalMessages (getStats two_hundred) = 200%nat
  ∧ GetValue (senderStats (getStats two_hundred)) (js "A")
    = VRecord (mkSenderStat 29 (Number_of_Z 14))
  ∧ exact_percentage 29 200 = 15%Z
  ∧ Number_of_Z 14 ≠ Number_of_Z (exact_percentage 29 200).
Proof.
  split; [reflexivity|]. split; [vm_compute; reflexivity|].
  split; [reflexivity|]. vm_compute. discriminate.
Qed.

(** C9 at a separator line without a date: the display text is the line
    itself, which is not a normalized day string. *)
Lemma dateless_separator_kept_whole :
  parse constructor dateless_separator
  = Ok (mkParser (mkChatData [] [] [DateEvent dateless_separator dateless_separator]))
  ∧ ¬ normalized_date dateless_separator.
Proof.
  split; [vm_compute; reflexivity|].
  intros (y & mo & da & w & Hlen & Hdig & _ & _ & _ & _ & _ & _ & Heq).
  destruct y as [|c y]; [discriminate Hlen|].
  apply Forall_cons in Hdig as [Hc _]. vm_compute in Heq.
  injection Heq as <- _. vm_compute in Hc. discriminate Hc.
Qed.

(** * The theorems at sample inputs *)

Lemma continuation_round_witness :
  currentMessage sample_open = Some sample_unfinished
  ∧ trim (js "  world") ≠ []
  ∧ unmatched (trim (js "  world"))
  ∧ ∃ cm', parse_line sample_open (js "  world")
           = Ok (Loop (this sample_open) (currentDate sample_open) (Some cm'))
      ∧ content cm' = content sample_unfinished ++ LF ++ trim (js "  world")
      ∧ messageType cm' = detectMessageType (content cm')
      ∧ sender cm' = sender sample_unfinished ∧ time cm' = time sample_unfinished
      ∧ date cm' = date sample_unfinished.
Proof.
  assert (H1 : currentMessage sample_open = Some sample_unfinished) by reflexivity.
  assert (H2 : trim (js "  world") ≠ []) by (vm_compute; discriminate).
  assert (H3 : unmatched (trim (js "  world"))) by (repeat split; vm_compute; reflexivity).
  split; [exact H1|]. split; [exact H2|]. split; [exact H3|].
  exact (continuation_round sample_open (js "  world") sample_unfinished H1 H2 H3).
Defined.

Lemma headers_last_match_wins_witness :
  parse constructor two_titles = Ok (mkParser (mkChatData (js "B") [] []))
  ∧ title (chatData (mkParser (mkChatData (js "B") [] [])))
    = header_value is_title_line s_title_strip (title (chatData constructor))
        (map trim (split 0x0A two_titles))
  ∧ saveDate (chatData (mkParser (mkChatData (js "B") [] [])))
    = header_value (fun l => negb (is_title_line l) && is_save_line l) s_save_strip
        (saveDate (chatData constructor)) (map trim (split 0x0A two_titles)).
Proof.
  assert (H : parse constructor two_titles = Ok (mkParser (mkChatData (js "B") [] [])))
    by (vm_compute; reflexivity).
  split; [exact H|].
  exact (headers_last_match_wins constructor two_titles _ H).
Defined.


Lemma classifier_first_match_wins_witness :
  has_url sample_url = true
  ∧ detectMessageType sample_url
    = (if startsWith sample_url s_emoticon_prefix then Temoticon else Tlink)
  ∧ detectMessageType sample_url ≠ Tfile.
Proof.
  assert (H : has_url sample_url = true) by (vm_compute; reflexivity).
  split; [exact H|].
  exact (proj2 (classifier_first_match_wins sample_url) H).
Defined.

Lemma fresh_parser_dates_messages_example :
  parse constructor sample_text = Ok sample_parsed
  ∧ messages (chatData sample_parsed)
    = [DateEvent sample_day sample_separator] ++ MessageEvent sample_hello :: []
  ∧ date sample_hello = nearest_date [DateEvent sample_day sample_separator].
Proof.
  assert (H : parse constructor sample_text = Ok sample_parsed)
    by (vm_compute; reflexivity).
  split; [exact H|]. split; [reflexivity|].
  exact (fresh_parser_dates_messages sample_text sample_parsed
           [DateEvent sample_day sample_separator] [] sample_hello H eq_refl).
Defined.


Lemma date_marker_text_witness :
  parse constructor sample_text = Ok sample_parsed
  ∧ DateEvent sample_day sample_separator ∈ messages (chatData sample_parsed)
  ∧ ((is_Some (String_match sample_separator datePattern) ∧ normalized_date sample_day)
     ∨ (String_match sample_separator datePattern = None
        ∧ sample_day = sample_separator)).
Proof.
  assert (H : parse constructor sample_text = Ok sample_parsed)
    by (vm_compute; reflexivity).
  assert (Hin : DateEvent sample_day sample_separator
                ∈ messages (chatData sample_parsed)) by (simpl; left).
  split; [exact H|]. split; [exact Hin|].
  exact (date_marker_text sample_text sample_parsed sample_day sample_separator H Hin).
Defined.

Lemma getStats_projection_witness :
  js "A" ∈ map sender (filter_message (messages (chatData three_and_one)))
  ∧ GetValue (senderStats (getStats three_and_one)) (js "A")
    = VRecord (mkSenderStat
                 (length (filter_sender
                            (filter_message (messages (chatData three_and_one)))
                            (js "A")))
                 (Math_round
                    (Number_mul
                       (Number_div
                          (Number_of_nat
                             (length (filter_sender
                                        (filter_message
                                           (messages (chatData three_and_one)))
                                        (js "A"))))
                          (Number_of_nat
                             (length (filter_message
                                        (messages (chatData three_and_one))))))
                       (Number_of_nat 100)))).
Proof.
  assert (H : js "A" ∈ map sender
                (filter_message (messages (chatData three_and_one)))).
  { vm_compute. left. }
  split; [exact H|].
  exact (proj1 (proj2 (proj2 (proj2 (getStats_projection three_and_one (js "A"))))) H).
Defined.

Lemma getStats_without_messages_witness :
  (filter_message (messages (chatData constructor)) = []
   ∧ totalMessages (getStats constructor) = 0%nat
   ∧ participants (getStats constructor) = 0%nat
   ∧ senderStats (getStats constructor) = Object_empty)
  ∧ (GetValue (senderStats (getStats three_and_one)) (js "A")
     = VRecord (mkSenderStat 3 (Number_of_Z 75))
     ∧ (0 < count (mkSenderStat 3 (Number_of_Z 75)))%nat
     ∧ (0 < totalMessages (getStats three_and_one))%nat).
Proof.
  assert (H : GetValue (senderStats (getStats three_and_one)) (js "A")
              = VRecord (mkSenderStat 3 (Number_of_Z 75))) by (vm_compute; reflexivity).
  split.
  - split; [reflexivity|].
    exact (proj1 (getStats_without_messages constructor) eq_refl).
  - split; [exact H|].
    exact (proj2 (getStats_without_messages three_and_one) (js "A") _ H).
Defined.
